(** * arthurOS data layer: normalizer, mutation engine and sync engine

    A shallow embedding of [src/hooks/useLifeOS.ts] and of the document
    handlers of [src/App.tsx], followed by the properties of the
    specification that concern them.

    Layout: the definitions come first (JavaScript values and the
    normalizer, the typed document and its mutations, the sync engine),
    the theory afterwards. *)

From Stdlib Require Import List String Ascii Bool ZArith Arith Lia.
From Stdlib Require Import DecimalString.
From Stdlib Require Import Permutation.
Import ListNotations.
Open Scope string_scope.
Open Scope list_scope.
Set Warnings "-register-all".

(* ================================================================== *)
(** * Part I. Definitions                                               *)
(* ================================================================== *)

(** ** JavaScript values as the normalizer sees them

    [normalizeData] takes [parsed: any]; what reaches it is the result of
    [JSON.parse] (the local cache, the remote row) or the literal
    [INITIAL_DATA].  Such a value is null, a boolean, a number, a string,
    an array or an object.  Objects keep their properties in insertion
    order, as an association list.  [undefined] is not a JSON value: it is
    what reading an absent property gives, the [None] of [lookup].

    Numbers are taken in [Z]: the normalizer only ever tests a number for
    truthiness, and zero is the one falsy number JSON can denote. *)

Module JS.

Inductive value : Type :=
| VNull
| VBool (b : bool)
| VNum (n : Z)
| VStr (s : string)
| VArr (items : list value)
| VObj (props : list (string * value)).

(** Outcome of an expression that may throw. *)
Inductive result (A : Type) : Type :=
| Ok (a : A)
| Throw (message : string).
Arguments Ok {A} a.
Arguments Throw {A} message.

Definition bind {A B} (r : result A) (k : A -> result B) : result B :=
  match r with
  | Ok a => k a
  | Throw m => Throw m
  end.

Notation "x <- r ;; k" := (bind r (fun x => k))
  (at level 61, r at next level, right associativity).

(** [ToBoolean]: null, false, 0 and the empty string are falsy. *)
Definition truthy (v : value) : bool :=
  match v with
  | VNull => false
  | VBool b => b
  | VNum n => negb (n =? 0)%Z
  | VStr s => negb (s =? "")
  | VArr _ | VObj _ => true
  end.

(** [x || d] where [x] is the result of a property read. *)
Definition orElse (x : option value) (d : value) : value :=
  match x with
  | Some v => if truthy v then v else d
  | None => d
  end.

Fixpoint lookup (k : string) (ps : list (string * value)) : option value :=
  match ps with
  | [] => None
  | (k', v) :: rest => if k' =? k then Some v else lookup k rest
  end.

(** Writing property [k] in an object literal after a spread: an existing
    property keeps its place and takes the new value, a new one goes last. *)
Fixpoint set_field (k : string) (v : value) (ps : list (string * value))
  : list (string * value) :=
  match ps with
  | [] => [(k, v)]
  | (k', v') :: rest =>
      if k' =? k then (k, v) :: rest else (k', v') :: set_field k v rest
  end.

Definition type_error : string := "TypeError".

(** [o.k] for one of the names the normalizer reads (none of them is an
    index, [length], or a prototype property): reading from null throws,
    from an object looks the property up, from anything else gives
    [undefined]. *)
Definition get (k : string) (o : value) : result (option value) :=
  match o with
  | VNull => Throw type_error
  | VObj ps => Ok (lookup k ps)
  | _ => Ok None
  end.

Definition index_key (i : nat) : string :=
  NilEmpty.string_of_uint (Nat.to_uint i).

Fixpoint indexed_from {A} (f : A -> value) (i : nat) (l : list A)
  : list (string * value) :=
  match l with
  | [] => []
  | x :: rest => (index_key i, f x) :: indexed_from f (S i) rest
  end.

Fixpoint chars (s : string) : list string :=
  match s with
  | EmptyString => []
  | String c rest => String c EmptyString :: chars rest
  end.

(** The own enumerable properties copied by [{...o}]. *)
Definition own_props (o : value) : list (string * value) :=
  match o with
  | VObj ps => ps
  | VArr items => indexed_from (fun v => v) 0 items
  | VStr s => indexed_from VStr 0 (chars s)
  | VNull | VBool _ | VNum _ => []
  end.

Fixpoint mapM {A B} (f : A -> result B) (l : list A) : result (list B) :=
  match l with
  | [] => Ok []
  | x :: rest => y <- f x ;; ys <- mapM f rest ;; Ok (y :: ys)
  end.

(** [a.map(f)]: only an array has a callable [map]. *)
Definition array_map (f : value -> result value) (a : value) : result value :=
  match a with
  | VArr items => l <- mapM f items ;; Ok (VArr l)
  | _ => Throw type_error
  end.

End JS.

(** ** The normalizer and the initial document ([useLifeOS.ts]) *)

Module Normalizer.
Import JS.

Definition INITIAL_DATA : value :=
  VObj [
    ("areaGroups", VArr []);
    ("areas", VArr [
       VObj [("id", VStr "1"); ("title", VStr "Work");
             ("icon", VStr "briefcase"); ("tasks", VArr []);
             ("projects", VArr []); ("resources", VArr []);
             ("labels", VArr [])];
       VObj [("id", VStr "2"); ("title", VStr "Health");
             ("icon", VStr "heart"); ("tasks", VArr []);
             ("projects", VArr []); ("resources", VArr []);
             ("labels", VArr [])]]);
    ("inbox", VArr [])].

Definition normalizeTask (t : value) : result value :=
  description <- get "description" t ;;
  labels <- get "labels" t ;;
  attachments <- get "attachments" t ;;
  contextTags <- get "contextTags" t ;;
  Ok (VObj
    (set_field "contextTags" (orElse contextTags (VArr []))
    (set_field "attachments" (orElse attachments (VArr []))
    (set_field "labels" (orElse labels (VArr []))
    (set_field "description" (orElse description (VStr ""))
    (own_props t)))))).

Definition normalizePhase (phase : value) : result value :=
  status <- get "status" phase ;;
  labels <- get "labels" phase ;;
  attachments <- get "attachments" phase ;;
  tasks <- get "tasks" phase ;;
  tasks' <- array_map normalizeTask (orElse tasks (VArr [])) ;;
  Ok (VObj
    (set_field "tasks" tasks'
    (set_field "attachments" (orElse attachments (VArr []))
    (set_field "labels" (orElse labels (VArr []))
    (set_field "status" (orElse status (VStr "Backlog"))
    (own_props phase)))))).

Definition normalizeProject (project : value) : result value :=
  status <- get "status" project ;;
  labels <- get "labels" project ;;
  attachments <- get "attachments" project ;;
  tasks <- get "tasks" project ;;
  tasks' <- array_map normalizeTask (orElse tasks (VArr [])) ;;
  phases <- get "phases" project ;;
  phases' <- array_map normalizePhase (orElse phases (VArr [])) ;;
  Ok (VObj
    (set_field "phases" phases'
    (set_field "tasks" tasks'
    (set_field "attachments" (orElse attachments (VArr []))
    (set_field "labels" (orElse labels (VArr []))
    (set_field "status" (orElse status (VStr "Backlog"))
    (own_props project))))))).

Definition normalizeArea (area : value) : result value :=
  labels <- get "labels" area ;;
  description <- get "description" area ;;
  tasks <- get "tasks" area ;;
  tasks' <- array_map normalizeTask (orElse tasks (VArr [])) ;;
  projects <- get "projects" area ;;
  projects' <- array_map normalizeProject (orElse projects (VArr [])) ;;
  Ok (VObj
    (set_field "projects" projects'
    (set_field "tasks" tasks'
    (set_field "description" (orElse description (VStr ""))
    (set_field "labels" (orElse labels (VArr []))
    (own_props area)))))).

Definition normalizeData (parsed : value) : result value :=
  areaGroups <- get "areaGroups" parsed ;;
  inbox <- get "inbox" parsed ;;
  inbox' <- array_map normalizeTask (orElse inbox (VArr [])) ;;
  areas <- get "areas" parsed ;;
  areas' <- array_map normalizeArea (orElse areas (VArr [])) ;;
  Ok (VObj
    (set_field "areas" areas'
    (set_field "inbox" inbox'
    (set_field "areaGroups" (orElse areaGroups (VArr []))
    (own_props parsed))))).

(** The [useState] initializer: [saved] is the parsed content of the
    local cache entry, [None] when [localStorage.getItem] returns null. *)
Definition initialData (saved : option value) : result value :=
  normalizeData (match saved with
                 | Some parsed => parsed
                 | None => INITIAL_DATA
                 end).

End Normalizer.

(** ** The typed document ([types.ts])

    The handlers of [App.tsx] and the helpers of the hook work on a
    [LifeOSData].  String-literal unions become inductive types, optional
    properties become [option]. *)

Module Model.

Inductive Status : Type := Backlog | InProgress | Done.
Inductive Priority : Type := P1 | P2 | P3.
Inductive Energy : Type := High | Low.
Inductive ResourceType : Type := Link | Note.

Record Resource : Type := {
  resource_id : string;
  resource_title : string;
  resource_content : string;
  resource_type : ResourceType;
  resource_url : option string;
  resource_createdAt : string
}.

Record Attachment : Type := {
  attachment_id : string;
  attachment_name : string;
  attachment_url : string;
  attachment_type : string;
  attachment_size : Z;
  attachment_createdAt : string
}.

Record Task : Type := {
  task_id : string;
  task_title : string;
  task_description : option string;
  task_status : Status;
  task_priority : Priority;
  task_contextTags : list string;
  task_energy : Energy;
  task_deadline : option string;
  task_labels : list string;
  task_attachments : option (list Attachment);
  task_createdAt : string
}.

Record Phase : Type := {
  phase_id : string;
  phase_title : string;
  phase_description : option string;
  phase_status : Status;
  phase_startDate : option string;
  phase_endDate : option string;
  phase_tasks : list Task;
  phase_labels : list string;
  phase_attachments : option (list Attachment)
}.

Record Project : Type := {
  project_id : string;
  project_title : string;
  project_description : string;
  project_status : Status;
  project_startDate : string;
  project_endDate : string;
  project_tasks : list Task;
  project_phases : list Phase;
  project_resources : list Resource;
  project_labels : list string;
  project_attachments : option (list Attachment)
}.

Record AreaGroup : Type := {
  group_id : string;
  group_title : string
}.

Record Area : Type := {
  area_id : string;
  area_title : string;
  area_description : option string;
  area_icon : string;
  area_tasks : list Task;
  area_projects : list Project;
  area_resources : list Resource;
  area_labels : list string;
  area_groupId : option string
}.

Record LifeOSData : Type := {
  areaGroups : list AreaGroup;
  areas : list Area;
  inbox : list Task
}.

(** Assignments to one property of an object. *)

Definition set_task_status (s : Status) (t : Task) : Task :=
  {| task_id := task_id t; task_title := task_title t;
     task_description := task_description t; task_status := s;
     task_priority := task_priority t;
     task_contextTags := task_contextTags t; task_energy := task_energy t;
     task_deadline := task_deadline t; task_labels := task_labels t;
     task_attachments := task_attachments t;
     task_createdAt := task_createdAt t |}.

Definition set_task_attachments (a : option (list Attachment)) (t : Task)
  : Task :=
  {| task_id := task_id t; task_title := task_title t;
     task_description := task_description t; task_status := task_status t;
     task_priority := task_priority t;
     task_contextTags := task_contextTags t; task_energy := task_energy t;
     task_deadline := task_deadline t; task_labels := task_labels t;
     task_attachments := a;
     task_createdAt := task_createdAt t |}.

Definition set_phase_tasks (ts : list Task) (ph : Phase) : Phase :=
  {| phase_id := phase_id ph; phase_title := phase_title ph;
     phase_description := phase_description ph;
     phase_status := phase_status ph; phase_startDate := phase_startDate ph;
     phase_endDate := phase_endDate ph; phase_tasks := ts;
     phase_labels := phase_labels ph;
     phase_attachments := phase_attachments ph |}.

Definition set_phase_attachments (a : option (list Attachment)) (ph : Phase)
  : Phase :=
  {| phase_id := phase_id ph; phase_title := phase_title ph;
     phase_description := phase_description ph;
     phase_status := phase_status ph; phase_startDate := phase_startDate ph;
     phase_endDate := phase_endDate ph; phase_tasks := phase_tasks ph;
     phase_labels := phase_labels ph;
     phase_attachments := a |}.

Definition set_project_tasks (ts : list Task) (p : Project) : Project :=
  {| project_id := project_id p; project_title := project_title p;
     project_description := project_description p;
     project_status := project_status p;
     project_startDate := project_startDate p;
     project_endDate := project_endDate p; project_tasks := ts;
     project_phases := project_phases p;
     project_resources := project_resources p;
     project_labels := project_labels p;
     project_attachments := project_attachments p |}.

Definition set_project_phases (phs : list Phase) (p : Project) : Project :=
  {| project_id := project_id p; project_title := project_title p;
     project_description := project_description p;
     project_status := project_status p;
     project_startDate := project_startDate p;
     project_endDate := project_endDate p; project_tasks := project_tasks p;
     project_phases := phs;
     project_resources := project_resources p;
     project_labels := project_labels p;
     project_attachments := project_attachments p |}.

Definition set_project_attachments (a : option (list Attachment))
  (p : Project) : Project :=
  {| project_id := project_id p; project_title := project_title p;
     project_description := project_description p;
     project_status := project_status p;
     project_startDate := project_startDate p;
     project_endDate := project_endDate p; project_tasks := project_tasks p;
     project_phases := project_phases p;
     project_resources := project_resources p;
     project_labels := project_labels p;
     project_attachments := a |}.

Definition set_area_tasks (ts : list Task) (a : Area) : Area :=
  {| area_id := area_id a; area_title := area_title a;
     area_description := area_description a; area_icon := area_icon a;
     area_tasks := ts; area_projects := area_projects a;
     area_resources := area_resources a; area_labels := area_labels a;
     area_groupId := area_groupId a |}.

Definition set_area_projects (ps : list Project) (a : Area) : Area :=
  {| area_id := area_id a; area_title := area_title a;
     area_description := area_description a; area_icon := area_icon a;
     area_tasks := area_tasks a; area_projects := ps;
     area_resources := area_resources a; area_labels := area_labels a;
     area_groupId := area_groupId a |}.

Definition set_area_groupId (g : option string) (a : Area) : Area :=
  {| area_id := area_id a; area_title := area_title a;
     area_description := area_description a; area_icon := area_icon a;
     area_tasks := area_tasks a; area_projects := area_projects a;
     area_resources := area_resources a; area_labels := area_labels a;
     area_groupId := g |}.

Definition set_areaGroups (gs : list AreaGroup) (d : LifeOSData)
  : LifeOSData :=
  {| areaGroups := gs; areas := areas d; inbox := inbox d |}.

Definition set_areas (l : list Area) (d : LifeOSData) : LifeOSData :=
  {| areaGroups := areaGroups d; areas := l; inbox := inbox d |}.

Definition set_inbox (ts : list Task) (d : LifeOSData) : LifeOSData :=
  {| areaGroups := areaGroups d; areas := areas d; inbox := ts |}.

(** Every task container of a document, in the order the handlers visit
    them: the inbox, then for each area its direct list, then for each of
    its projects the direct list and the lists of the phases. *)

Definition project_containers (p : Project) : list (list Task) :=
  project_tasks p :: map phase_tasks (project_phases p).

Definition area_containers (a : Area) : list (list Task) :=
  area_tasks a :: flat_map project_containers (area_projects a).

Definition containers (d : LifeOSData) : list (list Task) :=
  inbox d :: flat_map area_containers (areas d).

Definition all_tasks (d : LifeOSData) : list Task :=
  List.concat (containers d).

Definition all_task_ids (d : LifeOSData) : list string :=
  map task_id (all_tasks d).

(** Number of places a task id occupies in the document. *)
Definition occurrences (taskId : string) (d : LifeOSData) : nat :=
  count_occ string_dec (all_task_ids d) taskId.

(** The one-location invariant: no task id occupies two places. *)
Definition one_location (d : LifeOSData) : Prop := NoDup (all_task_ids d).

(** The document with every task list emptied: what is left is all that
    is not a task. *)
Definition strip_phase (ph : Phase) : Phase := set_phase_tasks [] ph.

Definition strip_project (p : Project) : Project :=
  set_project_phases (map strip_phase (project_phases p))
    (set_project_tasks [] p).

Definition strip_area (a : Area) : Area :=
  set_area_projects (map strip_project (area_projects a))
    (set_area_tasks [] a).

Definition without_tasks (d : LifeOSData) : LifeOSData :=
  {| areaGroups := areaGroups d; areas := map strip_area (areas d);
     inbox := [] |}.

(** Occurrences of an id, counted along the structure. *)
Definition count_in (taskId : string) (tasks : list Task) : nat :=
  count_occ string_dec (map task_id tasks) taskId.

Definition phase_count (taskId : string) (p : Project) : nat :=
  list_sum
    (map (fun ph => count_in taskId (phase_tasks ph)) (project_phases p)).

Definition direct_count (taskId : string) (a : Area) : nat :=
  count_in taskId (area_tasks a) +
  list_sum
    (map (fun p => count_in taskId (project_tasks p)) (area_projects a)).

Definition nested_count (taskId : string) (a : Area) : nat :=
  list_sum (map (phase_count taskId) (area_projects a)).


End Model.

(** ** The mutation engine ([App.tsx] handlers, [useLifeOS.ts] helpers)

    Each operation is a function from the current document to the
    document the hook holds afterwards.  [JSON.parse(JSON.stringify(data))]
    is a deep copy and is the identity on a typed document.  What the
    source draws from the environment (a generated id, the clock, an
    object URL) is an argument. *)

Module Mutation.
Import Model.

(** *** Array operations *)

Section Arrays.
Context {A : Type}.

(** [l.findIndex(p)] followed by [l.splice(idx, 1)] when an index is found. *)
Fixpoint remove_first (p : A -> bool) (l : list A) : list A :=
  match l with
  | [] => []
  | x :: rest => if p x then rest else x :: remove_first p rest
  end.

(** [l.find(p)] followed by an in-place update of the element found. *)
Fixpoint update_first (p : A -> bool) (f : A -> A) (l : list A) : list A :=
  match l with
  | [] => []
  | x :: rest => if p x then f x :: rest else x :: update_first p f rest
  end.

(** [l.forEach] with a callback that updates the element and a variable
    of the enclosing scope. *)
Fixpoint forEach_with {S : Type} (f : A -> S -> A * S) (l : list A) (s : S)
  : list A * S :=
  match l with
  | [] => ([], s)
  | x :: rest =>
      let (x', s1) := f x s in
      let (rest', s2) := forEach_with f rest s1 in
      (x' :: rest', s2)
  end.

End Arrays.

Definition is_task (taskId : string) (t : Task) : bool := task_id t =? taskId.
Definition is_phase (id : string) (ph : Phase) : bool := phase_id ph =? id.
Definition is_project (id : string) (p : Project) : bool := project_id p =? id.
Definition is_area (id : string) (a : Area) : bool := area_id a =? id.

(** [title || fallback] on strings. *)
Definition title_or (title fallback : string) : string :=
  if title =? "" then fallback else title.

(** An optional id as a condition: [undefined] and the empty string are
    falsy. *)
Definition given (id : option string) : option string :=
  match id with
  | Some s => if s =? "" then None else Some s
  | None => None
  end.

Inductive TargetType : Type := TInbox | TArea | TProject | TPhase.

(** *** Helpers of the hook *)

Definition newArea (title icon : string) (groupId : option string)
  (uuid : string) : Area :=
  {| area_id := uuid; area_title := title; area_description := None;
     area_icon := icon; area_tasks := []; area_projects := [];
     area_resources := []; area_labels := []; area_groupId := groupId |}.

Definition addArea (title icon : string) (groupId : option string)
  (uuid : string) (prev : LifeOSData) : LifeOSData :=
  set_areas (areas prev ++ [newArea title icon groupId uuid]) prev.

Definition deleteArea (id : string) (prev : LifeOSData) : LifeOSData :=
  set_areas (filter (fun a => negb (area_id a =? id)) (areas prev)) prev.

Definition deleteGroup (id : string) (prev : LifeOSData) : LifeOSData :=
  {| areaGroups := filter (fun g => negb (group_id g =? id)) (areaGroups prev);
     areas := map (fun a => match area_groupId a with
                            | Some g => if g =? id
                                        then set_area_groupId None a else a
                            | None => a
                            end) (areas prev);
     inbox := inbox prev |}.

Definition keep_other (taskId : string) (tasks : list Task) : list Task :=
  filter (fun t => negb (task_id t =? taskId)) tasks.

Definition deleteTask (taskId : string) (prev : LifeOSData) : LifeOSData :=
  {| areaGroups := areaGroups prev;
     areas :=
       map (fun area =>
         set_area_projects
           (map (fun project =>
              set_project_phases
                (map (fun phase =>
                   set_phase_tasks (keep_other taskId (phase_tasks phase))
                     phase)
                   (project_phases project))
                (set_project_tasks (keep_other taskId (project_tasks project))
                   project))
              (area_projects area))
           (set_area_tasks (keep_other taskId (area_tasks area)) area))
         (areas prev);
     inbox := keep_other taskId (inbox prev) |}.

Definition deleteProject (projectId : string) (prev : LifeOSData)
  : LifeOSData :=
  set_areas
    (map (fun area =>
       set_area_projects
         (filter (fun p => negb (project_id p =? projectId))
            (area_projects area)) area)
       (areas prev)) prev.

Definition deletePhase (phaseId : string) (prev : LifeOSData) : LifeOSData :=
  set_areas
    (map (fun area =>
       set_area_projects
         (map (fun project =>
            set_project_phases
              (filter (fun ph => negb (phase_id ph =? phaseId))
                 (project_phases project)) project)
            (area_projects area)) area)
       (areas prev)) prev.

(** *** Creation handlers *)

(** [title] is [newGroupTitle.trim()]; nothing happens when it is empty. *)
Definition handleAddGroup (title : string) (newId : string)
  (data : LifeOSData) : LifeOSData :=
  if title =? "" then data
  else set_areaGroups
         (areaGroups data ++ [{| group_id := newId; group_title := title |}])
         data.

Definition newTask (title newId now : string) : Task :=
  {| task_id := newId; task_title := title_or title "New Task";
     task_description := Some ""; task_status := Backlog;
     task_priority := P2; task_contextTags := []; task_energy := Low;
     task_deadline := None; task_labels := []; task_attachments := None;
     task_createdAt := now |}.

Definition unshift_area_task (t : Task) (a : Area) : Area :=
  set_area_tasks (t :: area_tasks a) a.
Definition unshift_project_task (t : Task) (p : Project) : Project :=
  set_project_tasks (t :: project_tasks p) p.
Definition unshift_phase_task (t : Task) (ph : Phase) : Phase :=
  set_phase_tasks (t :: phase_tasks ph) ph.

(** The insertion shared by [handleAddTask] and [moveTask]: the same
    four-way branch on the target appears in both. *)
Definition insert_task (t : Task) (target : TargetType) (id : option string)
  (newData : LifeOSData) : LifeOSData :=
  match target, given id with
  | TInbox, _ => set_inbox (t :: inbox newData) newData
  | TArea, Some i =>
      set_areas (update_first (is_area i) (unshift_area_task t)
                   (areas newData)) newData
  | TProject, Some i =>
      set_areas
        (map (fun area =>
           set_area_projects
             (update_first (is_project i) (unshift_project_task t)
                (area_projects area)) area)
           (areas newData)) newData
  | TPhase, Some i =>
      set_areas
        (map (fun area =>
           set_area_projects
             (map (fun project =>
                set_project_phases
                  (update_first (is_phase i) (unshift_phase_task t)
                     (project_phases project)) project)
                (area_projects area)) area)
           (areas newData)) newData
  | _, None => newData
  end.

Definition handleAddTask (title : string) (target : TargetType)
  (id : option string) (newId now : string) (data : LifeOSData)
  : LifeOSData :=
  insert_task (newTask title newId now) target id data.

Definition newProject (title newId startDate endDate : string) : Project :=
  {| project_id := newId; project_title := title_or title "New Project";
     project_description := ""; project_status := Backlog;
     project_startDate := startDate; project_endDate := endDate;
     project_tasks := []; project_phases := []; project_resources := [];
     project_labels := []; project_attachments := None |}.

(** [updateData] is only called when the area exists; either way the
    document is the old one with the first matching area extended. *)
Definition handleAddProject (title areaId : string)
  (newId startDate endDate : string) (data : LifeOSData) : LifeOSData :=
  set_areas
    (update_first (is_area areaId)
       (fun area =>
          set_area_projects
            (newProject title newId startDate endDate :: area_projects area)
            area)
       (areas data)) data.

Definition newPhase (title newId : string) : Phase :=
  {| phase_id := newId; phase_title := title_or title "New Phase";
     phase_description := Some ""; phase_status := Backlog;
     phase_startDate := None; phase_endDate := None; phase_tasks := [];
     phase_labels := []; phase_attachments := None |}.

Definition handleAddPhase (title projectId : string) (newId : string)
  (data : LifeOSData) : LifeOSData :=
  set_areas
    (map (fun area =>
       set_area_projects
         (update_first (is_project projectId)
            (fun project =>
               set_project_phases
                 (project_phases project ++ [newPhase title newId]) project)
            (area_projects area)) area)
       (areas data)) data.

(** *** Attachments *)

Record File : Type := {
  file_name : string;
  file_type : string;
  file_size : Z
}.

Inductive UploadType : Type := UProject | UPhase | UTask.

Definition push_attachment (attachment : Attachment)
  (current : option (list Attachment)) : option (list Attachment) :=
  Some (match current with Some l => l | None => [] end ++ [attachment]).

Definition handleFileUpload (file : File) (targetId : string)
  (type : UploadType) (newId url now : string) (data : LifeOSData)
  : LifeOSData :=
  let attachment :=
    {| attachment_id := newId; attachment_name := file_name file;
       attachment_url := url; attachment_type := file_type file;
       attachment_size := file_size file; attachment_createdAt := now |} in
  match type with
  | UTask =>
      let updateInList (tasks : list Task) :=
        update_first (is_task targetId)
          (fun task =>
             set_task_attachments
               (push_attachment attachment (task_attachments task)) task)
          tasks in
      {| areaGroups := areaGroups data;
         areas :=
           map (fun area =>
             set_area_projects
               (map (fun project =>
                  set_project_phases
                    (map (fun phase =>
                       set_phase_tasks (updateInList (phase_tasks phase))
                         phase)
                       (project_phases project)) project)
                  (area_projects area)) area)
             (areas data);
         inbox := updateInList (inbox data) |}
  | UProject =>
      set_areas
        (map (fun area =>
           set_area_projects
             (update_first (is_project targetId)
                (fun project =>
                   set_project_attachments
                     (push_attachment attachment
                        (project_attachments project)) project)
                (area_projects area)) area)
           (areas data)) data
  | UPhase =>
      set_areas
        (map (fun area =>
           set_area_projects
             (map (fun project =>
                set_project_phases
                  (update_first (is_phase targetId)
                     (fun phase =>
                        set_phase_attachments
                          (push_attachment attachment
                             (phase_attachments phase)) phase)
                     (project_phases project)) project)
                (area_projects area)) area)
           (areas data)) data
  end.

(** *** Moving *)

(** [removeFromList]: the closure variable [taskToMove] is the second
    component; the boolean the source returns is never read. *)
Definition removeFromList (taskId : string) (tasks : list Task)
  (taskToMove : option Task) : list Task * option Task :=
  match find (is_task taskId) tasks with
  | Some t => (remove_first (is_task taskId) tasks, Some t)
  | None => (tasks, taskToMove)
  end.

Definition removeFromPhase (taskId : string) (phase : Phase)
  (taskToMove : option Task) : Phase * option Task :=
  let (ts, m) := removeFromList taskId (phase_tasks phase) taskToMove in
  (set_phase_tasks ts phase, m).

Definition removeFromProject (taskId : string) (project : Project)
  (taskToMove : option Task) : Project * option Task :=
  let (ts, m1) := removeFromList taskId (project_tasks project) taskToMove in
  let (phs, m2) :=
    forEach_with (removeFromPhase taskId) (project_phases project) m1 in
  (set_project_phases phs (set_project_tasks ts project), m2).

Definition removeFromArea (taskId : string) (area : Area)
  (taskToMove : option Task) : Area * option Task :=
  let (ts, m1) := removeFromList taskId (area_tasks area) taskToMove in
  let (ps, m2) :=
    forEach_with (removeFromProject taskId) (area_projects area) m1 in
  (set_area_projects ps (set_area_tasks ts area), m2).

(** The first half of [moveTask]: the copy with the task taken out of
    every container, and the task found last. *)
Definition removeEverywhere (taskId : string) (data : LifeOSData)
  : LifeOSData * option Task :=
  let (inbox', m0) := removeFromList taskId (inbox data) None in
  let (areas', m1) := forEach_with (removeFromArea taskId) (areas data) m0 in
  ({| areaGroups := areaGroups data; areas := areas'; inbox := inbox' |}, m1).

Definition moveTask (taskId : string) (targetType : TargetType)
  (targetId : option string) (data : LifeOSData) : LifeOSData :=
  match removeEverywhere taskId data with
  | (newData, Some taskToMove) =>
      insert_task taskToMove targetType targetId newData
  | (_, None) => data
  end.

(** [updateData] is reached only when both the project and the target
    area are found. *)
Definition moveProject (projectId targetAreaId : string) (data : LifeOSData)
  : LifeOSData :=
  let (areas', projectToMove) :=
    forEach_with
      (fun area (found : option Project) =>
         match find (is_project projectId) (area_projects area) with
         | Some p =>
             (set_area_projects
                (remove_first (is_project projectId) (area_projects area))
                area, Some p)
         | None => (area, found)
         end)
      (areas data) None in
  match projectToMove with
  | Some p =>
      match find (is_area targetAreaId) areas' with
      | Some _ =>
          set_areas
            (update_first (is_area targetAreaId)
               (fun targetArea =>
                  set_area_projects (p :: area_projects targetArea)
                    targetArea)
               areas') data
      | None => data
      end
  | None => data
  end.

(** *** Status *)

Definition toggle (s : Status) : Status :=
  match s with
  | Done => InProgress
  | _ => Done
  end.

Definition updateTaskStatus (taskId : string) (tasks : list Task)
  : list Task :=
  update_first (is_task taskId)
    (fun task => set_task_status (toggle (task_status task)) task) tasks.

Definition toggleTaskStatus (taskId : string) (data : LifeOSData)
  : LifeOSData :=
  {| areaGroups := areaGroups data;
     areas :=
       map (fun area =>
         set_area_projects
           (map (fun project =>
              set_project_phases
                (map (fun phase =>
                   set_phase_tasks
                     (updateTaskStatus taskId (phase_tasks phase)) phase)
                   (project_phases project))
                (set_project_tasks
                   (updateTaskStatus taskId (project_tasks project)) project))
              (area_projects area))
           (set_area_tasks (updateTaskStatus taskId (area_tasks area)) area))
         (areas data);
     inbox := updateTaskStatus taskId (inbox data) |}.

(** *** Reading aids for [moveTask]

    What the removal pass does to the document, without the variable it
    threads; and the targets for which the insertion finds nothing. *)

Definition removeFromPhase_tasks (taskId : string) (ph : Phase) : Phase :=
  set_phase_tasks (remove_first (is_task taskId) (phase_tasks ph)) ph.

Definition removeFromProject_tasks (taskId : string) (p : Project)
  : Project :=
  set_project_phases (map (removeFromPhase_tasks taskId) (project_phases p))
    (set_project_tasks (remove_first (is_task taskId) (project_tasks p)) p).

Definition removeFromArea_tasks (taskId : string) (a : Area) : Area :=
  set_area_projects (map (removeFromProject_tasks taskId) (area_projects a))
    (set_area_tasks (remove_first (is_task taskId) (area_tasks a)) a).

Definition unmatched (targetType : TargetType) (targetId : option string)
  (d : LifeOSData) : Prop :=
  match targetType, given targetId with
  | TInbox, _ => False
  | _, None => True
  | TArea, Some i => forall a, In a (areas d) -> area_id a <> i
  | TProject, Some i =>
      forall a p, In a (areas d) -> In p (area_projects a) ->
        project_id p <> i
  | TPhase, Some i =>
      forall a p ph, In a (areas d) -> In p (area_projects a) ->
        In ph (project_phases p) -> phase_id ph <> i
  end.

End Mutation.

(** ** The sync engine ([useLifeOS.ts]: state, the two effects)

    The hook's state, the local cache entry and the clock are one record.
    The document is the value [normalizeData] returns.  The cache entry is
    identified with the value it parses to ([JSON.stringify] on writing,
    [JSON.parse] on reading).  Calls that leave the hook are logged in
    [trace], newest first.  A network call is split where the source
    awaits: the request is logged when it is issued, the answer of the
    store is an argument of the step that consumes it. *)

Module SyncEngine.
Import JS Normalizer.

Record StoreError : Type := {
  code : string;
  message : string
}.

(** Answer to [.select('data').eq('user_id', user.id).single()]:
    [row] is the value of [row?.data], [None] when there is no row. *)
Inductive ReadOutcome : Type :=
| ReadReturns (row : option value) (error : option StoreError)
| ReadThrows (msg : string).

(** Answer to [.upsert({...})]: [{error: null}], [{error}], or a throw. *)
Inductive UpsertOutcome : Type :=
| UpsertOk
| UpsertError (msg : string)
| UpsertThrows (msg : string).

Inductive Effect : Type :=
| LocalWrite (doc : value)
| RemoteRead (user_id : string)
| RemoteUpsert (user_id : string) (doc : value).

(** A pending [setTimeout]: when it is due and what its callback closed
    over. *)
Record Timer : Type := {
  deadline : nat;
  timer_user : string;
  timer_data : value
}.

Record State : Type := {
  data : value;
  syncing : bool;
  lastSyncError : option string;
  saveTimeout : option Timer;
  loadedFromCloud : bool;
  user : option string;
  localStorage : option value;
  clock : nat;
  trace : list Effect
}.

Definition set_data (d : value) (s : State) : State :=
  {| data := d; syncing := syncing s; lastSyncError := lastSyncError s;
     saveTimeout := saveTimeout s; loadedFromCloud := loadedFromCloud s;
     user := user s; localStorage := localStorage s; clock := clock s;
     trace := trace s |}.

Definition setSyncing (b : bool) (s : State) : State :=
  {| data := data s; syncing := b; lastSyncError := lastSyncError s;
     saveTimeout := saveTimeout s; loadedFromCloud := loadedFromCloud s;
     user := user s; localStorage := localStorage s; clock := clock s;
     trace := trace s |}.

Definition setLastSyncError (e : option string) (s : State) : State :=
  {| data := data s; syncing := syncing s; lastSyncError := e;
     saveTimeout := saveTimeout s; loadedFromCloud := loadedFromCloud s;
     user := user s; localStorage := localStorage s; clock := clock s;
     trace := trace s |}.

Definition set_saveTimeout (t : option Timer) (s : State) : State :=
  {| data := data s; syncing := syncing s; lastSyncError := lastSyncError s;
     saveTimeout := t; loadedFromCloud := loadedFromCloud s;
     user := user s; localStorage := localStorage s; clock := clock s;
     trace := trace s |}.

Definition set_loadedFromCloud (b : bool) (s : State) : State :=
  {| data := data s; syncing := syncing s; lastSyncError := lastSyncError s;
     saveTimeout := saveTimeout s; loadedFromCloud := b;
     user := user s; localStorage := localStorage s; clock := clock s;
     trace := trace s |}.

Definition set_clock (t : nat) (s : State) : State :=
  {| data := data s; syncing := syncing s; lastSyncError := lastSyncError s;
     saveTimeout := saveTimeout s; loadedFromCloud := loadedFromCloud s;
     user := user s; localStorage := localStorage s; clock := t;
     trace := trace s |}.

Definition log (e : Effect) (s : State) : State :=
  {| data := data s; syncing := syncing s; lastSyncError := lastSyncError s;
     saveTimeout := saveTimeout s; loadedFromCloud := loadedFromCloud s;
     user := user s; localStorage := localStorage s; clock := clock s;
     trace := e :: trace s |}.

(** [localStorage.setItem(STORAGE_KEY, JSON.stringify(doc))] *)
Definition localStorage_setItem (doc : value) (s : State) : State :=
  log (LocalWrite doc)
    {| data := data s; syncing := syncing s;
       lastSyncError := lastSyncError s; saveTimeout := saveTimeout s;
       loadedFromCloud := loadedFromCloud s; user := user s;
       localStorage := Some doc; clock := clock s; trace := trace s |}.

Definition upsert (user_id : string) (doc : value) (s : State) : State :=
  log (RemoteUpsert user_id doc) s.

(** *** Loading *)

(** [error && error.code !== 'PGRST116'] *)
Definition blocking (error : option StoreError) : option StoreError :=
  match error with
  | Some e => if code e =? "PGRST116" then None else Some e
  | None => None
  end.

(** [if (row?.data)]: the row's document when there is a truthy one. *)
Definition present (row : option value) : option value :=
  match row with
  | Some row_data => if truthy row_data then Some row_data else None
  | None => None
  end.

(** [JSON.parse(localStorage.getItem(STORAGE_KEY) || 'null')] *)
Definition localData (s : State) : value :=
  match localStorage s with
  | Some doc => doc
  | None => VNull
  end.

(** The [catch] and [finally] clauses shared by both asynchronous bodies. *)
Definition catch (msg : string) (s : State) : State :=
  setSyncing false (setLastSyncError (Some msg) s).

(** The body of [loadFromCloud] for user [uid], given what the read and,
    if a seed is pushed, the upsert answer. *)
Definition loadFromCloud (uid : string) (read : ReadOutcome)
  (seed : UpsertOutcome) (s : State) : State :=
  let s := log (RemoteRead uid) (setSyncing true s) in
  let finish (s : State) : State :=
    setSyncing false (setLastSyncError None (set_loadedFromCloud true s)) in
  match read with
  | ReadThrows msg => catch msg s
  | ReadReturns row error =>
      match blocking error with
      | Some e => setSyncing false (setLastSyncError (Some (message e)) s)
      | None =>
          match present row with
          | Some row_data =>
              match normalizeData row_data with
              | Ok cloudData =>
                  finish
                    (localStorage_setItem cloudData (set_data cloudData s))
              | Throw msg => catch msg s
              end
          | None =>
              if truthy (localData s) then
                match seed with
                | UpsertThrows msg => catch msg (upsert uid (localData s) s)
                | UpsertOk | UpsertError _ =>
                    finish (upsert uid (localData s) s)
                end
              else finish s
          end
      end
  end.

(** The effect on [[user]]: reset the guard without identity, load once
    with one. *)
Definition loadEffect (read : ReadOutcome) (seed : UpsertOutcome)
  (s : State) : State :=
  match user s with
  | None => set_loadedFromCloud false s
  | Some uid => if loadedFromCloud s then s else loadFromCloud uid read seed s
  end.

(** *** Saving *)

Definition DEBOUNCE_MS : nat := 1000.

(** The effect on [[data, user]].  Before it runs again React runs the
    cleanup of its previous run, which clears the pending timer. *)
Definition saveEffect (s : State) : State :=
  let s := set_saveTimeout None s in
  let s := localStorage_setItem (data s) s in
  match user s with
  | None => s
  | Some uid =>
      set_saveTimeout
        (Some {| deadline := clock s + DEBOUNCE_MS; timer_user := uid;
                 timer_data := data s |}) s
  end.

(** A state change of the document ([setData], [updateData]) and the
    render that follows it. *)
Definition setData (d : value) (s : State) : State :=
  saveEffect (set_data d s).

(** The timer callback up to its [await]: the upsert is issued with the
    document the callback closed over. *)
Definition fire (t : Timer) (s : State) : State :=
  upsert (timer_user t) (timer_data t)
    (setSyncing true (set_saveTimeout None s)).

(** The timer callback after its [await]. *)
Definition upsertReturns (o : UpsertOutcome) (s : State) : State :=
  match o with
  | UpsertOk => setSyncing false (setLastSyncError None s)
  | UpsertError msg => setSyncing false (setLastSyncError (Some msg) s)
  | UpsertThrows msg => catch msg s
  end.

(** Time passes; a pending timer that has become due fires. *)
Definition elapse (ms : nat) (s : State) : State :=
  let s := set_clock (clock s + ms) s in
  match saveTimeout s with
  | Some t => if (deadline t <=? clock s)%nat then fire t s else s
  | None => s
  end.

Inductive Event : Type :=
| Edit (d : value)
| Elapse (ms : nat)
| UpsertReturns (o : UpsertOutcome).

Definition step (s : State) (e : Event) : State :=
  match e with
  | Edit d => setData d s
  | Elapse ms => elapse ms s
  | UpsertReturns o => upsertReturns o s
  end.

Definition run (events : list Event) (s : State) : State :=
  fold_left step events s.

(** [n] edits in a burst: the first one, then each further one after a
    pause. *)
Fixpoint burst (rest : list (nat * value)) : list Event :=
  match rest with
  | [] => []
  | (pause, d) :: rest' => Elapse pause :: Edit d :: burst rest'
  end.

(** The state right after an edit to [d]: the document and the cache hold
    [d], and with an identity one timer is pending, a full debounce delay
    away, closed over [d]. *)
Definition settled (d : value) (s : State) : Prop :=
  data s = d /\
  localStorage s = Some d /\
  saveTimeout s =
    match user s with
    | Some uid =>
        Some {| deadline := clock s + DEBOUNCE_MS; timer_user := uid;
                timer_data := d |}
    | None => None
    end.

End SyncEngine.

(** ** Sample documents and sessions *)

Module Samples.
Import JS Model Mutation SyncEngine.

Definition task (id : string) : Task := newTask id id "2024-01-01T00:00:00Z".

Definition phase1 : Phase :=
  set_phase_tasks [task "t4"] (newPhase "Plan" "ph1").

Definition project1 : Project :=
  set_project_phases [phase1]
    (set_project_tasks [task "t3"]
       (newProject "Get fit" "p1" "2024-01-01" "2024-01-08")).

Definition area1 : Area :=
  set_area_projects [project1]
    (set_area_tasks [task "t2"] (newArea "Health" "heart" None "a1")).

(** One task in each kind of container. *)
Definition doc1 : LifeOSData :=
  {| areaGroups := [{| group_id := "g1"; group_title := "Life" |}];
     areas := [area1];
     inbox := [task "t1"] |}.

Definition photo : File :=
  {| file_name := "scan.png"; file_type := "image/png"; file_size := 2048 |}.

(** A signed-in session that has loaded. *)
Definition session0 : State :=
  {| data := VObj []; syncing := false; lastSyncError := None;
     saveTimeout := None; loadedFromCloud := true; user := Some "u1";
     localStorage := None; clock := 0; trace := [] |}.

Definition timer0 : Timer :=
  {| deadline := 1000; timer_user := "u1"; timer_data := VObj [] |}.

(** A session whose identity has just appeared, with a cached document. *)
Definition session1 : State :=
  {| data := VObj [("inbox", VArr [])]; syncing := false;
     lastSyncError := None; saveTimeout := None; loadedFromCloud := false;
     user := Some "u1"; localStorage := Some (VObj [("inbox", VArr [])]);
     clock := 0; trace := [] |}.

End Samples.


(** ** Teardown, sign-out and what the trace is made of ([useLifeOS.ts]) *)

Module Session.
Import JS Normalizer SyncEngine.

Definition set_user (u : option string) (s : State) : State :=
  {| data := data s; syncing := syncing s; lastSyncError := lastSyncError s;
     saveTimeout := saveTimeout s; loadedFromCloud := loadedFromCloud s;
     user := u; localStorage := localStorage s; clock := clock s;
     trace := trace s |}.

(** The function the save effect returns; React calls it when the
    component unmounts (and before the effect runs again, which
    [saveEffect] already accounts for). *)
Definition cleanup (s : State) : State := set_saveTimeout None s.

(** [user] becomes null: the effect on [[user]] resets the guard and
    returns, the effect on [[data, user]] runs again. *)
Definition signOut (s : State) : State :=
  saveEffect (set_loadedFromCloud false (set_user None s)).

(** Edits each followed by a pause. *)
Fixpoint spaced (edits : list (value * nat)) : list Event :=
  match edits with
  | [] => []
  | (d, pause) :: rest => Edit d :: Elapse pause :: spaced rest
  end.

Definition is_remote (e : Effect) : bool :=
  match e with
  | LocalWrite _ => false
  | RemoteRead _ | RemoteUpsert _ _ => true
  end.

(** The cache entry is the document in memory. *)
Definition coherent (s : State) : Prop := localStorage s = Some (data s).

(** A pending timer was set for the document in memory and the user
    signed in. *)
Definition timer_current (s : State) : Prop :=
  forall t, saveTimeout s = Some t ->
    timer_data t = data s /\ user s = Some (timer_user t).

End Session.

Module MoreSamples.
Import JS Model Mutation SyncEngine.

(** A session without identity. *)
Definition guest0 : State :=
  {| data := VObj []; syncing := false; lastSyncError := None;
     saveTimeout := None; loadedFromCloud := false; user := None;
     localStorage := None; clock := 0; trace := [] |}.


(** Two areas, the second one empty. *)
Definition doc2 : LifeOSData :=
  addArea "Work" "briefcase" None "a2" Samples.doc1.

End MoreSamples.


(** ** What a normalized document looks like

    The shape the components rely on when they read [task.labels],
    [project.phases] and the like without a guard. *)

Module Shape.
Import JS.

(** [o.k] is there and truthy. *)
Definition truthy_field (k : string) (o : value) : bool :=
  match o with
  | VObj ps => match lookup k ps with
               | Some v => truthy v
               | None => false
               end
  | _ => false
  end.

Definition textual (v : value) : bool :=
  match v with
  | VStr _ => true
  | _ => truthy v
  end.

(** [o.k] is there and is truthy or a string. *)
Definition text_field (k : string) (o : value) : bool :=
  match o with
  | VObj ps => match lookup k ps with
               | Some v => textual v
               | None => false
               end
  | _ => false
  end.

(** [o.k] is an array whose elements all satisfy [p]. *)
Definition array_field (p : value -> bool) (k : string) (o : value) : bool :=
  match o with
  | VObj ps => match lookup k ps with
               | Some (VArr items) => forallb p items
               | _ => false
               end
  | _ => false
  end.

Definition complete_task (t : value) : bool :=
  text_field "description" t && truthy_field "labels" t &&
  truthy_field "attachments" t && truthy_field "contextTags" t.

Definition complete_phase (ph : value) : bool :=
  truthy_field "status" ph && truthy_field "labels" ph &&
  truthy_field "attachments" ph && array_field complete_task "tasks" ph.

Definition complete_project (p : value) : bool :=
  truthy_field "status" p && truthy_field "labels" p &&
  truthy_field "attachments" p && array_field complete_task "tasks" p &&
  array_field complete_phase "phases" p.

Definition complete_area (a : value) : bool :=
  truthy_field "labels" a && text_field "description" a &&
  array_field complete_task "tasks" a &&
  array_field complete_project "projects" a.

Definition complete_data (d : value) : bool :=
  truthy_field "areaGroups" d && array_field complete_task "inbox" d &&
  array_field complete_area "areas" d.

(** The three properties [normalizeData] writes, the four [normalizeTask]
    writes. *)
Definition data_keys : list string := ["areaGroups"; "inbox"; "areas"].
Definition task_keys : list string :=
  ["description"; "labels"; "attachments"; "contextTags"].

End Shape.


(** ** Saving an edited entity ([App.tsx]: [updateArea], [updateTask],
    [updateProject], [updatePhase]) *)

Module Updates.
Import Model Mutation.

(** [idx = l.findIndex(p); if (idx !== -1) l[idx] = x] *)
Definition replace_first {A} (p : A -> bool) (x : A) (l : list A) : list A :=
  update_first p (fun _ => x) l.

Definition updateArea (updatedArea : Area) (data : LifeOSData) : LifeOSData :=
  set_areas
    (replace_first (is_area (area_id updatedArea)) updatedArea (areas data))
    data.

Definition updateInList (updatedTask : Task) (tasks : list Task)
  : list Task :=
  replace_first (is_task (task_id updatedTask)) updatedTask tasks.

Definition updateTask (updatedTask : Task) (data : LifeOSData) : LifeOSData :=
  {| areaGroups := areaGroups data;
     areas :=
       map (fun area =>
         set_area_projects
           (map (fun project =>
              set_project_phases
                (map (fun phase =>
                   set_phase_tasks
                     (updateInList updatedTask (phase_tasks phase)) phase)
                   (project_phases project))
                (set_project_tasks
                   (updateInList updatedTask (project_tasks project))
                   project))
              (area_projects area))
           (set_area_tasks (updateInList updatedTask (area_tasks area)) area))
         (areas data);
     inbox := updateInList updatedTask (inbox data) |}.

Definition updateProject (updatedProject : Project) (data : LifeOSData)
  : LifeOSData :=
  set_areas
    (map (fun area =>
       set_area_projects
         (replace_first (is_project (project_id updatedProject))
            updatedProject (area_projects area)) area)
       (areas data)) data.

Definition updatePhase (updatedPhase : Phase) (data : LifeOSData)
  : LifeOSData :=
  set_areas
    (map (fun area =>
       set_area_projects
         (map (fun project =>
            set_project_phases
              (replace_first (is_phase (phase_id updatedPhase))
                 updatedPhase (project_phases project)) project)
            (area_projects area)) area)
       (areas data)) data.

End Updates.


(** ** The traversal the task handlers share

    [deleteTask], [toggleTaskStatus], [updateTask] and the removal pass of
    [moveTask] walk the document the same way and differ in what they do
    to each task list. *)

Module Traversal.
Import Model Mutation.

Definition map_containers (F : list Task -> list Task) (d : LifeOSData)
  : LifeOSData :=
  {| areaGroups := areaGroups d;
     areas :=
       map (fun area =>
         set_area_projects
           (map (fun project =>
              set_project_phases
                (map (fun phase =>
                   set_phase_tasks (F (phase_tasks phase)) phase)
                   (project_phases project))
                (set_project_tasks (F (project_tasks project)) project))
              (area_projects area))
           (set_area_tasks (F (area_tasks area)) area))
         (areas d);
     inbox := F (inbox d) |}.

(** The task ids an area holds, in the order of [containers]. *)
Definition area_ids (a : Area) : list string :=
  map task_id (List.concat (area_containers a)).

(** Every project of the document, area by area. *)
Definition all_projects (d : LifeOSData) : list Project :=
  flat_map area_projects (areas d).

(** What the removal pass of [moveProject] does to one area. *)
Definition takeProject (projectId : string) (area : Area) : Area :=
  match find (is_project projectId) (area_projects area) with
  | Some _ =>
      set_area_projects
        (remove_first (is_project projectId) (area_projects area)) area
  | None => area
  end.

End Traversal.

(** ** Targets that take exactly one insertion *)

Module Targets.
Import Model Mutation.

(** The inbox, or an area id some area carries: [insert_task] then puts
    the task in one place.  (A project or phase id is looked up in every
    area, see [insert_task].) *)
Definition single_target (targetType : TargetType)
  (targetId : option string) (d : LifeOSData) : Prop :=
  match targetType, given targetId with
  | TInbox, _ => True
  | TArea, Some i => exists a, In a (areas d) /\ area_id a = i
  | _, _ => False
  end.

End Targets.


(** ** Where the edit dialog finds a task ([App.tsx]: [EditTaskModal],
    [currentLocation]) *)

Module Locate.
Import Model Mutation.

(** The object [currentLocation] returns. *)
Record Location : Type := {
  loc_type : TargetType;
  loc_areaId : option string;
  loc_projectId : option string;
  loc_phaseId : option string
}.

(** [tasks?.some(t => t.id === task.id)] *)
Definition has_task (taskId : string) (tasks : list Task) : bool :=
  existsb (is_task taskId) tasks.

(** A [for ... of] loop whose body may [return]. *)
Fixpoint first_return {A B} (body : A -> option B) (l : list A) : option B :=
  match l with
  | [] => None
  | x :: rest =>
      match body x with
      | Some r => Some r
      | None => first_return body rest
      end
  end.

Definition locate_in_project (taskId : string) (area : Area)
  (project : Project) : option Location :=
  if has_task taskId (project_tasks project) then
    Some {| loc_type := TProject; loc_areaId := Some (area_id area);
            loc_projectId := Some (project_id project);
            loc_phaseId := None |}
  else
    first_return
      (fun phase =>
         if has_task taskId (phase_tasks phase) then
           Some {| loc_type := TPhase; loc_areaId := Some (area_id area);
                   loc_projectId := Some (project_id project);
                   loc_phaseId := Some (phase_id phase) |}
         else None)
      (project_phases project).

Definition locate_in_area (taskId : string) (area : Area)
  : option Location :=
  if has_task taskId (area_tasks area) then
    Some {| loc_type := TArea; loc_areaId := Some (area_id area);
            loc_projectId := None; loc_phaseId := None |}
  else first_return (locate_in_project taskId area) (area_projects area).

Definition inbox_location : Location :=
  {| loc_type := TInbox; loc_areaId := None; loc_projectId := None;
     loc_phaseId := None |}.

Definition currentLocation (taskId : string) (data : LifeOSData)
  : Location :=
  match first_return (locate_in_area taskId) (areas data) with
  | Some location => location
  | None => inbox_location
  end.

(** The id [handleMove] hands to [moveTask] for a location. *)
Definition location_targetId (l : Location) : option string :=
  match loc_type l with
  | TInbox => None
  | TArea => loc_areaId l
  | TProject => loc_projectId l
  | TPhase => loc_phaseId l
  end.

End Locate.

(* ================================================================== *)
(** * Part II. Theory                                                   *)
(* ================================================================== *)

(** ** Objects as ordered property lists *)

Section ObjectFacts.
Import JS.

Lemma lookup_set_field_eq k v ps : lookup k (set_field k v ps) = Some v.
Proof.
  induction ps as [|[k' v'] ps IH]; simpl.
  - now rewrite String.eqb_refl.
  - destruct (k' =? k) eqn:E; simpl.
    + now rewrite String.eqb_refl.
    + now rewrite E.
Qed.

Lemma lookup_set_field_ne k k' v ps :
  (k' =? k) = false -> lookup k (set_field k' v ps) = lookup k ps.
Proof.
  intros Hne. induction ps as [|[k0 v0] ps IH]; simpl.
  - now rewrite Hne.
  - destruct (k0 =? k') eqn:E; simpl.
    + apply String.eqb_eq in E. subst k0. now rewrite Hne.
    + now rewrite IH.
Qed.

Lemma set_field_same k v ps : lookup k ps = Some v -> set_field k v ps = ps.
Proof.
  induction ps as [|[k' v'] ps IH]; simpl; [discriminate|].
  destruct (k' =? k) eqn:E.
  - apply String.eqb_eq in E. intros [= ->]. now subst.
  - intros H. now rewrite IH.
Qed.

Lemma orElse_truthy v d : truthy v = true -> orElse (Some v) d = v.
Proof. intros H. simpl. now rewrite H. Qed.

Lemma orElse_idem x d : orElse (Some (orElse x d)) d = orElse x d.
Proof.
  destruct x as [v|]; simpl.
  - destruct (truthy v) eqn:E.
    + now rewrite E.
    + now destruct (truthy d).
  - now destruct (truthy d).
Qed.

Lemma get_object k ps : get k (VObj ps) = Ok (lookup k ps).
Proof. reflexivity. Qed.

Lemma bind_Ok_inv {A B} (r : result A) (k : A -> result B) b :
  bind r k = Ok b -> exists a, r = Ok a /\ k a = Ok b.
Proof. destruct r as [a|m]; simpl; [eauto | discriminate]. Qed.

Lemma mapM_fixed {A} (f : A -> result A) :
  (forall x y, f x = Ok y -> f y = Ok y) ->
  forall l l', mapM f l = Ok l' -> mapM f l' = Ok l'.
Proof.
  intros Hf. induction l as [|x l IH]; simpl; intros l' H.
  - injection H as <-. reflexivity.
  - apply bind_Ok_inv in H as (y & Hy & H).
    apply bind_Ok_inv in H as (ys & Hys & H).
    injection H as <-. simpl.
    now rewrite (Hf _ _ Hy), (IH _ Hys).
Qed.

Lemma array_map_fixed (f : value -> result value) :
  (forall x y, f x = Ok y -> f y = Ok y) ->
  forall a a', array_map f a = Ok a' ->
    truthy a' = true /\ array_map f a' = Ok a'.
Proof.
  intros Hf a a' H. destruct a; try discriminate. simpl in H.
  apply bind_Ok_inv in H as (l & Hl & H). injection H as <-.
  split; [reflexivity|]. simpl. now rewrite (mapM_fixed f Hf _ _ Hl).
Qed.

End ObjectFacts.

(** ** The normalizer reaches a fixed point in one pass *)

Section NormalizerFacts.
Import JS Normalizer.

(** Reads through the properties an object literal has just written. *)
Ltac read_fields :=
  repeat match goal with
  | |- context [lookup ?k (set_field ?k' ?v ?ps)] =>
      first [ rewrite (lookup_set_field_ne k k' v ps) by reflexivity
            | rewrite (lookup_set_field_eq k v ps) ]
  end.

(** A second write of the value a property already holds changes nothing. *)
Ltac rewrite_fields :=
  repeat (rewrite set_field_same by (read_fields; reflexivity)).

Ltac open_bind H :=
  let x := fresh "x" in
  let Hx := fresh "Hx" in
  apply bind_Ok_inv in H as (x & Hx & H).

Lemma normalizeTask_fixed t t' :
  normalizeTask t = Ok t' -> normalizeTask t' = Ok t'.
Proof.
  unfold normalizeTask. intros H.
  do 4 open_bind H. injection H as <-.
  rewrite !get_object. cbn [bind own_props]. read_fields.
  rewrite !orElse_idem. rewrite_fields. reflexivity.
Qed.

Lemma normalizePhase_fixed ph ph' :
  normalizePhase ph = Ok ph' -> normalizePhase ph' = Ok ph'.
Proof.
  unfold normalizePhase. intros H.
  do 5 open_bind H. injection H as <-.
  destruct (array_map_fixed _ normalizeTask_fixed _ _ Hx3) as [Ht Hm].
  rewrite !get_object. cbn [bind own_props]. read_fields.
  rewrite (orElse_truthy _ _ Ht), Hm. cbn [bind own_props]. read_fields.
  rewrite !orElse_idem. rewrite_fields. reflexivity.
Qed.

Lemma normalizeProject_fixed p p' :
  normalizeProject p = Ok p' -> normalizeProject p' = Ok p'.
Proof.
  unfold normalizeProject. intros H.
  do 7 open_bind H. injection H as <-.
  destruct (array_map_fixed _ normalizeTask_fixed _ _ Hx3) as [Ht Hm].
  destruct (array_map_fixed _ normalizePhase_fixed _ _ Hx5) as [Hp Hq].
  rewrite !get_object. cbn [bind own_props]. read_fields.
  rewrite (orElse_truthy _ _ Ht), Hm. cbn [bind own_props]. read_fields.
  rewrite (orElse_truthy _ _ Hp), Hq. cbn [bind own_props]. read_fields.
  rewrite !orElse_idem. rewrite_fields. reflexivity.
Qed.

Lemma normalizeArea_fixed a a' :
  normalizeArea a = Ok a' -> normalizeArea a' = Ok a'.
Proof.
  unfold normalizeArea. intros H.
  do 6 open_bind H. injection H as <-.
  destruct (array_map_fixed _ normalizeTask_fixed _ _ Hx2) as [Ht Hm].
  destruct (array_map_fixed _ normalizeProject_fixed _ _ Hx4) as [Hp Hq].
  rewrite !get_object. cbn [bind own_props]. read_fields.
  rewrite (orElse_truthy _ _ Ht), Hm. cbn [bind own_props]. read_fields.
  rewrite (orElse_truthy _ _ Hp), Hq. cbn [bind own_props]. read_fields.
  rewrite !orElse_idem. rewrite_fields. reflexivity.
Qed.

Lemma normalizeData_fixed D D' :
  normalizeData D = Ok D' -> normalizeData D' = Ok D'.
Proof.
  unfold normalizeData. intros H.
  do 5 open_bind H. injection H as <-.
  destruct (array_map_fixed _ normalizeTask_fixed _ _ Hx1) as [Ht Hm].
  destruct (array_map_fixed _ normalizeArea_fixed _ _ Hx3) as [Hp Hq].
  rewrite !get_object. cbn [bind own_props]. read_fields.
  rewrite (orElse_truthy _ _ Ht), Hm. cbn [bind own_props]. read_fields.
  rewrite (orElse_truthy _ _ Hp), Hq. cbn [bind own_props]. read_fields.
  rewrite !orElse_idem. rewrite_fields. reflexivity.
Qed.

(** The normalizer at work: an empty object, a partial document four
    levels deep, and an inbox that is not a list. *)
Example normalizeData_empty :
  normalizeData (VObj []) =
  Ok (VObj [("areaGroups", VArr []); ("inbox", VArr []); ("areas", VArr [])]).
Proof. reflexivity. Qed.

Example normalizeData_partial :
  normalizeData
    (VObj [("areas", VArr [VObj [
       ("id", VStr "a");
       ("projects", VArr [VObj [
          ("phases", VArr [VObj [
             ("tasks", VArr [VObj [("id", VStr "t")]])]])]])]])]) =
  Ok (VObj [
    ("areas", VArr [VObj [
       ("id", VStr "a");
       ("projects", VArr [VObj [
          ("phases", VArr [VObj [
             ("tasks", VArr [VObj [
                ("id", VStr "t"); ("description", VStr "");
                ("labels", VArr []); ("attachments", VArr []);
                ("contextTags", VArr [])]]);
             ("status", VStr "Backlog"); ("labels", VArr []);
             ("attachments", VArr [])]]);
          ("status", VStr "Backlog"); ("labels", VArr []);
          ("attachments", VArr []); ("tasks", VArr [])]]);
       ("labels", VArr []); ("description", VStr "");
       ("tasks", VArr [])]]);
    ("areaGroups", VArr []); ("inbox", VArr [])]).
Proof. reflexivity. Qed.

Example normalizeData_throws :
  normalizeData (VObj [("inbox", VStr "x")]) = Throw type_error /\
  normalizeData VNull = Throw type_error.
Proof. split; reflexivity. Qed.

(** C5. The normalizer is idempotent: for every input value [D],
    normalizing the result of [normalizeData D] gives that result again.
    Where [normalizeData D] throws (a null where an object is read, a
    non-array where a list is mapped) there is no result to normalize
    and the composition throws the same error. *)
Theorem normalizeData_idempotent (D : value) :
  (D' <- normalizeData D ;; normalizeData D') = normalizeData D.
Proof.
  destruct (normalizeData D) as [D'|m] eqn:E; simpl; [|reflexivity].
  exact (normalizeData_fixed D D' E).
Qed.

End NormalizerFacts.

(** C10. Cold start: with no entry in the local cache the hook starts
    from the normalized [INITIAL_DATA], which is not an empty document:
    no groups, an empty inbox, and the two areas "Work" (id 1, icon
    briefcase) and "Health" (id 2, icon heart), each with empty tasks,
    projects, resources and labels (and the empty description the
    normalizer fills in). *)
Theorem cold_start_is_seeded :
  Normalizer.initialData None =
  JS.Ok (JS.VObj [
    ("areaGroups", JS.VArr []);
    ("areas", JS.VArr [
       JS.VObj [("id", JS.VStr "1"); ("title", JS.VStr "Work");
                ("icon", JS.VStr "briefcase"); ("tasks", JS.VArr []);
                ("projects", JS.VArr []); ("resources", JS.VArr []);
                ("labels", JS.VArr []); ("description", JS.VStr "")];
       JS.VObj [("id", JS.VStr "2"); ("title", JS.VStr "Health");
                ("icon", JS.VStr "heart"); ("tasks", JS.VArr []);
                ("projects", JS.VArr []); ("resources", JS.VArr []);
                ("labels", JS.VArr []); ("description", JS.VStr "")]]);
    ("inbox", JS.VArr [])]).
Proof. reflexivity. Qed.

(** ** The sync engine *)

Section SyncFacts.
Import JS Normalizer SyncEngine Samples.

Lemma setData_settled d s :
  settled d (setData d s) /\
  user (setData d s) = user s /\
  trace (setData d s) = LocalWrite d :: trace s.
Proof.
  unfold settled, setData, saveEffect. simpl.
  destruct (user s) eqn:E; simpl; rewrite ?E; auto.
Qed.

Lemma short_pause_keeps_timer d s pause :
  settled d s -> pause < DEBOUNCE_MS ->
  elapse pause s = set_clock (clock s + pause) s.
Proof.
  intros (_ & _ & Ht) Hp. unfold elapse. simpl. rewrite Ht.
  destruct (user s); [|reflexivity]. simpl.
  destruct (Nat.leb_spec (clock s + DEBOUNCE_MS) (clock s + pause));
    [lia | reflexivity].
Qed.

Lemma last_cons_default {A} (x d : A) l : last (x :: l) d = last l x.
Proof.
  revert x d. induction l as [|y l IH]; intros x d; [reflexivity|].
  change (last (x :: y :: l) d) with (last (y :: l) d).
  now rewrite (IH y d), (IH y x).
Qed.

Lemma burst_settles rest :
  (forall pause d, In (pause, d) rest -> pause < DEBOUNCE_MS) ->
  forall d0 s, settled d0 s ->
    settled (last (map snd rest) d0) (run (burst rest) s) /\
    user (run (burst rest) s) = user s /\
    trace (run (burst rest) s) =
      rev (map LocalWrite (map snd rest)) ++ trace s.
Proof.
  induction rest as [|[pause d] rest IH]; intros Hp d0 s Hs.
  - simpl. auto.
  - cbn [run burst fold_left step].
    rewrite (short_pause_keeps_timer d0 s pause Hs)
      by (apply (Hp pause d); now left).
    destruct (setData_settled d (set_clock (clock s + pause) s))
      as (Hs1 & Hu1 & Ht1).
    destruct (IH (fun p x H => Hp p x (or_intror H)) d _ Hs1)
      as (Hs2 & Hu2 & Ht2).
    unfold run in Hs2, Hu2, Ht2.
    cbn [map snd]. rewrite last_cons_default.
    split; [exact Hs2|]. split.
    + rewrite Hu2, Hu1. reflexivity.
    + rewrite Ht2, Ht1. cbn [rev map trace set_clock].
      now rewrite <- app_assoc.
Qed.

Lemma settled_fires d s final :
  settled d s -> DEBOUNCE_MS <= final ->
  trace (elapse final s) =
    match user s with
    | Some uid => [RemoteUpsert uid d]
    | None => []
    end ++ trace s /\
  saveTimeout (elapse final s) = None /\
  data (elapse final s) = d /\
  localStorage (elapse final s) = Some d.
Proof.
  intros (Hd & Hl & Ht) Hf. unfold elapse. simpl. rewrite Ht.
  destruct (user s); simpl.
  - destruct (Nat.leb_spec (clock s + DEBOUNCE_MS) (clock s + final));
      [simpl; auto | lia].
  - auto.
Qed.

(** C4. A burst of edits, each within the debounce delay of the one
    before: while it lasts every edit writes the local cache, with or
    without identity, and no remote call is made; each edit replaces the
    pending timer by a fresh one, a full delay away, so that after the
    burst the only timer pending is the one of the last edit.  Once the
    delay has passed that timer fires and exactly one upsert is issued,
    of the document after the last edit (with no identity no timer is
    set and nothing is issued). *)
Theorem debounce_collapses_burst (s : State) (d1 : value)
  (rest : list (nat * value)) (final : nat) :
  (forall pause d, In (pause, d) rest -> pause < DEBOUNCE_MS) ->
  DEBOUNCE_MS <= final ->
  let docs := d1 :: map snd rest in
  let busy := run (Edit d1 :: burst rest) s in
  let quiet := run (Edit d1 :: burst rest ++ [Elapse final]) s in
  trace busy = rev (map LocalWrite docs) ++ trace s /\
  settled (last docs d1) busy /\
  trace quiet =
    match user s with
    | Some uid => [RemoteUpsert uid (last docs d1)]
    | None => []
    end ++ trace busy /\
  saveTimeout quiet = None /\
  data quiet = last docs d1 /\
  localStorage quiet = Some (last docs d1).
Proof.
  intros Hp Hf docs busy quiet.
  destruct (setData_settled d1 s) as (Hs1 & Hu1 & Ht1).
  destruct (burst_settles rest Hp d1 _ Hs1) as (Hs2 & Hu2 & Ht2).
  assert (Hlast : last docs d1 = last (map snd rest) d1)
    by (unfold docs; apply last_cons_default).
  assert (Hq : quiet = elapse final busy).
  { unfold quiet, busy, run. rewrite app_comm_cons, fold_left_app.
    reflexivity. }
  change busy with (run (burst rest) (setData d1 s)) in *.
  destruct (settled_fires _ _ final Hs2 Hf) as (Ht3 & Hn3 & Hd3 & Hl3).
  rewrite Hq, Hlast, Ht3, Hu2, Hu1.
  split; [|split; [exact Hs2 | auto]].
  rewrite Ht2, Ht1. unfold docs. cbn [map rev].
  now rewrite <- app_assoc.
Qed.

Lemma debounce_collapses_burst_witness :
  trace (run [Edit (VNum 1); Elapse 300; Edit (VNum 2); Elapse 999;
              Edit (VNum 3); Elapse 1000] session0) =
  [RemoteUpsert "u1" (VNum 3)] ++
  trace (run [Edit (VNum 1); Elapse 300; Edit (VNum 2); Elapse 999;
              Edit (VNum 3)] session0).
Proof.
  refine (proj1 (proj2 (proj2
    (debounce_collapses_burst session0 (VNum 1)
       [(300, VNum 2); (999, VNum 3)] 1000 _ _)))).
  - intros pause d [H|[H|[]]]; injection H as <- _; unfold DEBOUNCE_MS; lia.
  - unfold DEBOUNCE_MS; lia.
Defined.

Lemma upsertReturns_frame o s :
  data (upsertReturns o s) = data s /\
  localStorage (upsertReturns o s) = localStorage s /\
  saveTimeout (upsertReturns o s) = saveTimeout s /\
  trace (upsertReturns o s) = trace s.
Proof. destruct o; simpl; auto. Qed.

(** C8. The timer callback, from the upsert it issues to the answer it
    receives, changes neither the document nor the local cache: whatever
    the store answers, both are what they were before the attempt.  A
    reported error and a thrown exception alike end as the message in
    [lastSyncError] (every outcome yields a state, nothing is thrown
    on); a success leaves [lastSyncError] absent. *)
Theorem upsert_failure_is_only_recorded (s : State) (t : Timer)
  (o : UpsertOutcome) :
  let s' := upsertReturns o (fire t s) in
  data s' = data s /\
  localStorage s' = localStorage s /\
  trace s' = RemoteUpsert (timer_user t) (timer_data t) :: trace s /\
  syncing s' = false /\
  (forall msg, o = UpsertError msg \/ o = UpsertThrows msg ->
     lastSyncError s' = Some msg) /\
  (o = UpsertOk -> lastSyncError s' = None).
Proof.
  destruct o; simpl; repeat split; auto;
    try (intros msg' [H|H]; now inversion H); discriminate.
Qed.

Lemma upsert_failure_is_only_recorded_witness :
  lastSyncError (upsertReturns (UpsertThrows "Failed to fetch")
                   (fire timer0 session0)) = Some "Failed to fetch" /\
  lastSyncError (upsertReturns (UpsertError "timeout")
                   (fire timer0 session0)) = Some "timeout" /\
  lastSyncError (upsertReturns UpsertOk (fire timer0 session1)) = None.
Proof.
  split; [|split].
  - apply (upsert_failure_is_only_recorded session0 timer0
             (UpsertThrows "Failed to fetch")). now right.
  - apply (upsert_failure_is_only_recorded session0 timer0
             (UpsertError "timeout")). now left.
  - now apply (upsert_failure_is_only_recorded session1 timer0 UpsertOk).
Defined.

End SyncFacts.

Section LoadFacts.
Import JS Normalizer SyncEngine Samples.

Lemma loadEffect_loads s uid read seed :
  user s = Some uid -> loadedFromCloud s = false ->
  loadEffect read seed s = loadFromCloud uid read seed s.
Proof. intros Hu Hl. unfold loadEffect. now rewrite Hu, Hl. Qed.

Lemma blocking_no_rows e : code e = "PGRST116" -> blocking (Some e) = None.
Proof. intros H. unfold blocking. now rewrite H. Qed.

Lemma blocking_other e : code e <> "PGRST116" -> blocking (Some e) = Some e.
Proof.
  intros H. unfold blocking. apply String.eqb_neq in H. now rewrite H.
Qed.

(** C3. The one load made when an identity appears (a user, the guard
    not yet set).  A row with a document: its normalization becomes the
    document in memory and is written to the local cache.  No row (the
    store's no-rows code): the document in memory and the cache stay as
    they are, and the cached document, when there is one, is sent to the
    store as the seed upsert; with no cached document nothing is sent.
    Any other failure of the read, reported or thrown: its message is
    recorded, the document in memory and the cache stay as they are and
    nothing is sent. *)
Theorem load_precedence (s : State) (uid : string) (read : ReadOutcome)
  (seed : UpsertOutcome) :
  user s = Some uid ->
  loadedFromCloud s = false ->
  let s' := loadEffect read seed s in
  (forall doc cloudData,
     read = ReadReturns (Some doc) None -> truthy doc = true ->
     normalizeData doc = Ok cloudData ->
     data s' = cloudData /\ localStorage s' = Some cloudData /\
     trace s' = LocalWrite cloudData :: RemoteRead uid :: trace s) /\
  (forall e,
     read = ReadReturns None (Some e) -> code e = "PGRST116" ->
     data s' = data s /\ localStorage s' = localStorage s /\
     (forall localDoc,
        localStorage s = Some localDoc -> truthy localDoc = true ->
        trace s' = RemoteUpsert uid localDoc :: RemoteRead uid :: trace s) /\
     (localStorage s = None -> trace s' = RemoteRead uid :: trace s)) /\
  (forall row e,
     read = ReadReturns row (Some e) -> code e <> "PGRST116" ->
     lastSyncError s' = Some (message e) /\
     data s' = data s /\ localStorage s' = localStorage s /\
     trace s' = RemoteRead uid :: trace s) /\
  (forall msg,
     read = ReadThrows msg ->
     lastSyncError s' = Some msg /\
     data s' = data s /\ localStorage s' = localStorage s /\
     trace s' = RemoteRead uid :: trace s).
Proof.
  intros Hu Hl s'. unfold s'. rewrite (loadEffect_loads s uid read seed Hu Hl).
  repeat apply conj.
  - intros doc cloudData -> Ht Hn. unfold loadFromCloud. simpl.
    rewrite Ht, Hn. simpl. auto.
  - intros e -> He. unfold loadFromCloud.
    rewrite (blocking_no_rows e He). cbn [present].
    unfold localData. cbn [localStorage log setSyncing].
    destruct (localStorage s) as [l|] eqn:El.
    + destruct (truthy l) eqn:Tl.
      * destruct seed; simpl; rewrite ?El; repeat split; auto;
          try (intros localDoc [= <-] _; reflexivity); discriminate.
      * simpl. rewrite El. repeat split; auto; try discriminate.
        intros localDoc [= <-] C. congruence.
    + simpl. rewrite El. repeat split; auto. discriminate.
  - intros row e -> He. unfold loadFromCloud.
    rewrite (blocking_other e He). simpl. auto.
  - intros msg ->. unfold loadFromCloud. simpl. auto.
Qed.

Lemma load_precedence_witness :
  data (loadEffect (ReadReturns (Some (VObj [])) None) UpsertOk session1) =
    VObj [("areaGroups", VArr []); ("inbox", VArr []); ("areas", VArr [])] /\
  trace (loadEffect
           (ReadReturns None
              (Some {| code := "PGRST116"; message := "no rows" |}))
           UpsertOk session1) =
    [RemoteUpsert "u1" (VObj [("inbox", VArr [])]); RemoteRead "u1"] /\
  lastSyncError (loadEffect
                   (ReadReturns None
                      (Some {| code := "503"; message := "unavailable" |}))
                   UpsertOk session1) = Some "unavailable".
Proof.
  split; [|split].
  - destruct (load_precedence session1 "u1"
                (ReadReturns (Some (VObj [])) None) UpsertOk
                eq_refl eq_refl) as (Hadopt & _).
    now apply (Hadopt (VObj [])).
  - destruct (load_precedence session1 "u1"
                (ReadReturns None
                   (Some {| code := "PGRST116"; message := "no rows" |}))
                UpsertOk eq_refl eq_refl) as (_ & Hseed & _).
    destruct (Hseed {| code := "PGRST116"; message := "no rows" |}
                eq_refl eq_refl) as (_ & _ & Hpush & _).
    now apply (Hpush (VObj [("inbox", VArr [])])).
  - destruct (load_precedence session1 "u1"
                (ReadReturns None
                   (Some {| code := "503"; message := "unavailable" |}))
                UpsertOk eq_refl eq_refl) as (_ & _ & Hfail & _).
    apply (Hfail None {| code := "503"; message := "unavailable" |});
      [reflexivity | discriminate].
Defined.

End LoadFacts.

(** ** Lists, sums and loops *)

Import Model Mutation.

Section ListFacts.
Context {A : Type}.

Lemma flat_map_map {B C} (f : B -> list C) (g : A -> B) l :
  flat_map f (map g l) = flat_map (fun x => f (g x)) l.
Proof. induction l; simpl; congruence. Qed.

Lemma map_flat_map {B C} (f : B -> C) (g : A -> list B) l :
  map f (flat_map g l) = flat_map (fun x => map f (g x)) l.
Proof.
  induction l as [|x l IH]; simpl; [reflexivity|].
  now rewrite map_app, IH.
Qed.

Lemma map_fixed (f : A -> A) l : (forall x, In x l -> f x = x) -> map f l = l.
Proof.
  intros H. rewrite <- (map_id l) at 2. apply map_ext_in. exact H.
Qed.

Lemma filter_fixed (p : A -> bool) l :
  (forall x, In x l -> p x = true) -> filter p l = l.
Proof. intros H. apply forallb_filter_id, forallb_forall, H. Qed.

Lemma update_first_none (p : A -> bool) f l :
  (forall x, In x l -> p x = false) -> update_first p f l = l.
Proof.
  induction l as [|x l IH]; simpl; intros H; [reflexivity|].
  rewrite (H x (or_introl eq_refl)). f_equal. apply IH.
  intros y Hy. apply H. now right.
Qed.

Lemma update_first_split (p : A -> bool) f pre x post :
  p x = true -> (forall y, In y pre -> p y = false) ->
  update_first p f (pre ++ x :: post) = pre ++ f x :: post.
Proof.
  intros Hx. induction pre as [|y pre IH]; simpl; intros H.
  - now rewrite Hx.
  - rewrite (H y (or_introl eq_refl)). f_equal. apply IH.
    intros z Hz. apply H. now right.
Qed.

Lemma remove_first_none (p : A -> bool) l :
  find p l = None -> remove_first p l = l.
Proof.
  induction l as [|x l IH]; simpl; [reflexivity|].
  destruct (p x); [discriminate|]. intros H. now rewrite IH.
Qed.

End ListFacts.

Section SumFacts.

Lemma list_sum_cons x l : list_sum (x :: l) = x + list_sum l.
Proof. reflexivity. Qed.

Lemma list_sum_zero l x : list_sum l = 0 -> In x l -> x = 0.
Proof.
  induction l as [|y l IH]; simpl; [tauto|].
  intros H [->|Hx]; [lia | apply IH; [lia | exact Hx]].
Qed.


Lemma list_sum_flat_map {A} (f : A -> list nat) l :
  list_sum (flat_map f l) = list_sum (map (fun x => list_sum (f x)) l).
Proof.
  induction l as [|x l IH]; simpl; [reflexivity|].
  now rewrite list_sum_app, IH.
Qed.

Lemma list_sum_plus {A} (f g : A -> nat) l :
  list_sum (map (fun x => f x + g x) l) =
  list_sum (map f l) + list_sum (map g l).
Proof. induction l as [|x l IH]; simpl; lia. Qed.

Lemma Forall_sum_zero {A} (f : A -> nat) l :
  Forall (fun x => f x = 0) l -> list_sum (map f l) = 0.
Proof. induction 1 as [|x l Hx _ IH]; simpl; lia. Qed.

End SumFacts.

Section DistinctFacts.

Lemma NoDup_concat_elem {A B} (f : A -> B) cs c :
  NoDup (map f (List.concat cs)) -> In c cs -> NoDup (map f c).
Proof.
  induction cs as [|c0 cs IH]; simpl; [tauto|].
  rewrite map_app. intros Hnd [->|Hc].
  - eapply NoDup_app_remove_r. exact Hnd.
  - apply IH; [|exact Hc]. eapply NoDup_app_remove_l. exact Hnd.
Qed.

Lemma NoDup_map_filter {A B} (f : A -> B) (p : A -> bool) l :
  NoDup (map f l) -> NoDup (map f (filter p l)).
Proof.
  induction l as [|x l IH]; simpl; [auto|].
  intros Hnd. inversion Hnd as [|? ? Hnotin Hnd']; subst.
  destruct (p x); simpl; [|auto]. constructor; [|auto].
  intros Hin. apply Hnotin. apply in_map_iff in Hin as (y & Hy & Hin).
  apply filter_In in Hin as [Hin _]. rewrite <- Hy. now apply in_map.
Qed.

End DistinctFacts.

(** [forEach_with] seen from each side: what it does to the elements,
    and what it does to the variable it threads. *)
Section LoopFacts.

Lemma forEach_with_fst {A S} (f : A -> S -> A * S) (g : A -> A) l :
  (forall x s, fst (f x s) = g x) ->
  forall s, fst (forEach_with f l s) = map g l.
Proof.
  intros Hf. induction l as [|x l IH]; intros s; simpl; [reflexivity|].
  specialize (Hf x s). destruct (f x s) as [x' s1]. simpl in Hf. subst x'.
  specialize (IH s1). destruct (forEach_with f l s1) as [l' s2].
  simpl in *. now subst.
Qed.

Lemma forEach_with_snd {A S} (f : A -> S -> A * S) (P : S -> Prop) l :
  (forall x s, P s -> P (snd (f x s))) ->
  forall s, P s -> P (snd (forEach_with f l s)).
Proof.
  intros Hf. induction l as [|x l IH]; intros s Hs; simpl; [exact Hs|].
  specialize (Hf x s Hs). destruct (f x s) as [x' s1]. simpl in Hf.
  specialize (IH s1 Hf). now destruct (forEach_with f l s1).
Qed.

Lemma forEach_with_found {A S} (f : A -> option S -> A * option S)
  (Q : A -> Prop) l :
  (forall x s, snd (f x s) = None -> s = None /\ Q x) ->
  forall s, snd (forEach_with f l s) = None -> s = None /\ Forall Q l.
Proof.
  intros Hf. induction l as [|x l IH]; intros s; simpl; [auto|].
  specialize (Hf x s). destruct (f x s) as [x' s1]. simpl in Hf.
  specialize (IH s1). destruct (forEach_with f l s1) as [l' s2].
  simpl in *. intros ->. destruct (IH eq_refl) as [-> Hl].
  destruct (Hf eq_refl) as [-> Hx]. auto.
Qed.

End LoopFacts.

(** ** The typed document *)

Section RecordFacts.

Lemma set_phase_tasks_same ph : set_phase_tasks (phase_tasks ph) ph = ph.
Proof. now destruct ph. Qed.

Lemma set_project_phases_same p : set_project_phases (project_phases p) p = p.
Proof. now destruct p. Qed.

Lemma set_area_projects_same a : set_area_projects (area_projects a) a = a.
Proof. now destruct a. Qed.

Lemma set_areas_same d : set_areas (areas d) d = d.
Proof. now destruct d. Qed.

End RecordFacts.

(** Occurrences of a task id add up along the structure. *)
Section CountFacts.
Import Samples.

Lemma count_concat taskId (cs : list (list Task)) :
  count_occ string_dec (map task_id (List.concat cs)) taskId =
  list_sum (map (count_in taskId) cs).
Proof.
  induction cs as [|c cs IH]; simpl; [reflexivity|].
  now rewrite map_app, count_occ_app, IH.
Qed.

Lemma occurrences_sum taskId d :
  occurrences taskId d = list_sum (map (count_in taskId) (containers d)).
Proof. apply count_concat. Qed.

Lemma one_location_le taskId d :
  one_location d -> occurrences taskId d <= 1.
Proof. intros H. now apply NoDup_count_occ. Qed.

Lemma count_in_pos taskId tasks :
  In taskId (map task_id tasks) <-> 0 < count_in taskId tasks.
Proof. unfold count_in. rewrite (count_occ_In string_dec). lia. Qed.

Lemma count_in_zero taskId tasks :
  count_in taskId tasks = 0 ->
  forall t, In t tasks -> is_task taskId t = false.
Proof.
  intros H t Ht. unfold is_task. apply String.eqb_neq. intros E.
  assert (Hin : In taskId (map task_id tasks))
    by (rewrite <- E; now apply in_map).
  apply count_in_pos in Hin. lia.
Qed.

Lemma area_containers_sum taskId a :
  list_sum (map (count_in taskId) (area_containers a)) =
  direct_count taskId a + nested_count taskId a.
Proof.
  unfold area_containers, direct_count, nested_count. cbn [map].
  rewrite list_sum_cons, map_flat_map, list_sum_flat_map.
  rewrite <- Nat.add_assoc, <- list_sum_plus. do 2 f_equal.
  apply map_ext. intros p.
  unfold project_containers, phase_count. cbn [map].
  now rewrite list_sum_cons, map_map.
Qed.

Lemma occurrences_split taskId d :
  occurrences taskId d =
  count_in taskId (inbox d) +
  (list_sum (map (direct_count taskId) (areas d)) +
   list_sum (map (nested_count taskId) (areas d))).
Proof.
  rewrite occurrences_sum. unfold containers. cbn [map].
  rewrite list_sum_cons. f_equal.
  rewrite map_flat_map, list_sum_flat_map, <- list_sum_plus.
  f_equal. apply map_ext. intros a. apply area_containers_sum.
Qed.

Lemma doc1_one_location : one_location doc1.
Proof.
  unfold one_location. cbn.
  repeat constructor; simpl; intuition discriminate.
Qed.

End CountFacts.

(** ** Deleting a task *)

Section DeleteFacts.

Lemma keep_other_spec taskId tasks t :
  In t (keep_other taskId tasks) <-> In t tasks /\ task_id t <> taskId.
Proof.
  unfold keep_other. rewrite filter_In, negb_true_iff, String.eqb_neq.
  reflexivity.
Qed.

Lemma containers_deleteTask taskId d :
  containers (deleteTask taskId d) = map (keep_other taskId) (containers d).
Proof.
  unfold containers, deleteTask. cbn [inbox areas map]. f_equal.
  rewrite flat_map_map, map_flat_map. apply flat_map_ext. intros a.
  unfold area_containers. cbn [map]. f_equal.
  cbn [area_projects set_area_projects].
  rewrite flat_map_map, map_flat_map. apply flat_map_ext. intros p.
  unfold project_containers. cbn [map]. f_equal.
  cbn [project_phases set_project_phases]. rewrite !map_map. reflexivity.
Qed.

Lemma all_tasks_deleteTask taskId d :
  all_tasks (deleteTask taskId d) = keep_other taskId (all_tasks d).
Proof.
  unfold all_tasks. rewrite containers_deleteTask.
  apply concat_filter_map.
Qed.

Lemma without_tasks_deleteTask taskId d :
  without_tasks (deleteTask taskId d) = without_tasks d.
Proof.
  unfold without_tasks, deleteTask. cbn [areaGroups areas]. f_equal.
  rewrite map_map. apply map_ext. intros a.
  unfold strip_area, set_area_projects, set_area_tasks. simpl. f_equal.
  rewrite map_map. apply map_ext. intros p.
  unfold strip_project, set_project_phases, set_project_tasks. simpl.
  f_equal. rewrite map_map. apply map_ext. intros ph. reflexivity.
Qed.

(** C6. After [deleteTask taskId] no container (inbox, direct list of an
    area or of a project, list of a phase) holds a task with that id;
    every container is the old one with exactly those tasks taken out,
    the others in their order; and everything that is not a task
    (groups, areas, projects, phases and their own properties) is as
    before. *)
Theorem deleteTask_complete (taskId : string) (d : LifeOSData) :
  let d' := deleteTask taskId d in
  occurrences taskId d' = 0 /\
  (forall c, In c (containers d') -> ~ In taskId (map task_id c)) /\
  containers d' = map (keep_other taskId) (containers d) /\
  (forall t, In t (all_tasks d') <-> In t (all_tasks d) /\ task_id t <> taskId) /\
  without_tasks d' = without_tasks d.
Proof.
  assert (Hno : forall c, In c (containers (deleteTask taskId d)) ->
                 ~ In taskId (map task_id c)).
  { intros c Hc. rewrite containers_deleteTask in Hc.
    apply in_map_iff in Hc as (c0 & <- & _).
    intros Hin. apply in_map_iff in Hin as (t & Hid & Ht).
    apply keep_other_spec in Ht. tauto. }
  cbv zeta. repeat split.
  - unfold occurrences, all_task_ids. apply count_occ_not_In.
    rewrite all_tasks_deleteTask. intros Hin.
    apply in_map_iff in Hin as (t & Hid & Ht).
    apply keep_other_spec in Ht. tauto.
  - exact Hno.
  - apply containers_deleteTask.
  - rewrite all_tasks_deleteTask in H. now apply keep_other_spec in H.
  - rewrite all_tasks_deleteTask in H. now apply keep_other_spec in H.
  - intros [H1 H2]. rewrite all_tasks_deleteTask. now apply keep_other_spec.
  - apply without_tasks_deleteTask.
Qed.

Lemma deleteTask_complete_witness :
  occurrences "t3" (deleteTask "t3" Samples.doc1) = 0 /\
  (In (Samples.task "t2") (all_tasks (deleteTask "t3" Samples.doc1)) <->
   In (Samples.task "t2") (all_tasks Samples.doc1) /\
   task_id (Samples.task "t2") <> "t3").
Proof.
  destruct (deleteTask_complete "t3" Samples.doc1)
    as (Hgone & _ & _ & Hothers & _).
  split; [exact Hgone | exact (Hothers (Samples.task "t2"))].
Defined.

End DeleteFacts.

(** ** Creating and toggling *)

Section StatusFacts.

Lemma containers_toggleTaskStatus taskId d :
  containers (toggleTaskStatus taskId d) =
  map (updateTaskStatus taskId) (containers d).
Proof.
  unfold containers, toggleTaskStatus. cbn [inbox areas map]. f_equal.
  rewrite flat_map_map, map_flat_map. apply flat_map_ext. intros a.
  unfold area_containers. cbn [map]. f_equal.
  cbn [area_projects set_area_projects].
  rewrite flat_map_map, map_flat_map. apply flat_map_ext. intros p.
  unfold project_containers. cbn [map]. f_equal.
  cbn [project_phases set_project_phases]. rewrite !map_map. reflexivity.
Qed.

Lemma toggle_spec s :
  toggle s = match s with Done => InProgress | Backlog | InProgress => Done end.
Proof. now destruct s. Qed.

Lemma updateTaskStatus_head taskId t rest :
  task_id t = taskId ->
  updateTaskStatus taskId (t :: rest) =
  set_task_status (toggle (task_status t)) t :: rest.
Proof.
  intros H. unfold updateTaskStatus, is_task. simpl.
  now rewrite H, String.eqb_refl.
Qed.

(** C7. From the empty document, [handleAddTask "Buy milk"] into the
    inbox gives an inbox of one task with that title, status Backlog,
    priority P2 and energy Low; toggling it gives Done, toggling again
    gives In Progress.  In general [toggle] sends Done to In Progress and
    every other status to Done, and [toggleTaskStatus] applies it in each
    container to the first task carrying the id. *)
Theorem buy_milk_then_toggle (newId now : string) :
  let start := {| areaGroups := []; areas := []; inbox := [] |} in
  let d1 := handleAddTask "Buy milk" TInbox None newId now start in
  let d2 := toggleTaskStatus newId d1 in
  let d3 := toggleTaskStatus newId d2 in
  (exists t, inbox d1 = [t] /\ task_id t = newId /\
     task_title t = "Buy milk" /\ task_status t = Backlog /\
     task_priority t = P2 /\ task_energy t = Low) /\
  map task_status (inbox d2) = [Done] /\
  map task_status (inbox d3) = [InProgress] /\
  map task_title (inbox d3) = ["Buy milk"] /\
  toggle Done = InProgress /\
  (forall s, s <> Done -> toggle s = Done) /\
  (forall d taskId,
     containers (toggleTaskStatus taskId d) =
     map (updateTaskStatus taskId) (containers d)) /\
  (forall taskId pre t post,
     task_id t = taskId ->
     (forall x, In x pre -> task_id x <> taskId) ->
     updateTaskStatus taskId (pre ++ t :: post) =
     pre ++ set_task_status (toggle (task_status t)) t :: post).
Proof.
  cbv zeta. repeat split.
  - eexists. repeat split.
  - cbn [handleAddTask insert_task toggleTaskStatus inbox set_inbox].
    now rewrite updateTaskStatus_head.
  - cbn [handleAddTask insert_task toggleTaskStatus inbox set_inbox].
    now rewrite !updateTaskStatus_head.
  - cbn [handleAddTask insert_task toggleTaskStatus inbox set_inbox].
    now rewrite !updateTaskStatus_head.
  - intros s Hs. destruct s; [reflexivity | reflexivity | congruence].
  - intros d taskId. apply containers_toggleTaskStatus.
  - intros taskId pre t post Ht Hpre. unfold updateTaskStatus.
    apply (update_first_split (is_task taskId)
             (fun task => set_task_status (toggle (task_status task)) task)).
    + unfold is_task. now apply String.eqb_eq.
    + intros y Hy. unfold is_task. apply String.eqb_neq. now apply Hpre.
Qed.

Lemma buy_milk_then_toggle_witness :
  toggle Backlog = Done /\
  updateTaskStatus "t1"
    [newTask "a" "t0" "now"; newTask "b" "t1" "now"; newTask "c" "t1" "now"] =
    [newTask "a" "t0" "now";
     set_task_status Done (newTask "b" "t1" "now");
     newTask "c" "t1" "now"].
Proof.
  destruct (buy_milk_then_toggle "t1" "now")
    as (_ & _ & _ & _ & _ & Hother & _ & Hfirst).
  split.
  - apply Hother. discriminate.
  - apply (Hfirst "t1" [newTask "a" "t0" "now"] (newTask "b" "t1" "now")
             [newTask "c" "t1" "now"]).
    + reflexivity.
    + intros x [<-|[]]. discriminate.
Defined.

End StatusFacts.

Section CreationFacts.
Import Samples.

(** C2, as the code has it.  [addArea] and [handleAddGroup] put the new
    area and the new group at the end of [areas] and [areaGroups];
    [handleAddTask] puts the new task at the front of the inbox, or of
    the task list of the first area, project or phase carrying the target
    id; [handleAddProject] puts the new project at the front of the
    projects of the first area carrying the id; [handleAddPhase] puts the
    new phase at the end of the phases of the project. *)
Theorem creation_positions (d : LifeOSData) :
  (forall title icon groupId uuid,
     areas (addArea title icon groupId uuid d) =
     areas d ++ [newArea title icon groupId uuid]) /\
  (forall title newId, title <> "" ->
     areaGroups (handleAddGroup title newId d) =
     areaGroups d ++ [{| group_id := newId; group_title := title |}]) /\
  (forall title id newId now,
     inbox (handleAddTask title TInbox id newId now d) =
     newTask title newId now :: inbox d) /\
  (forall title id newId now pre a post,
     id <> "" -> areas d = pre ++ a :: post -> area_id a = id ->
     (forall x, In x pre -> area_id x <> id) ->
     areas (handleAddTask title TArea (Some id) newId now d) =
     pre ++ set_area_tasks (newTask title newId now :: area_tasks a) a
         :: post) /\
  (forall title id newId now k a pre p post,
     id <> "" -> nth_error (areas d) k = Some a ->
     area_projects a = pre ++ p :: post -> project_id p = id ->
     (forall x, In x pre -> project_id x <> id) ->
     nth_error (areas (handleAddTask title TProject (Some id) newId now d)) k =
     Some (set_area_projects
             (pre ++ set_project_tasks
                       (newTask title newId now :: project_tasks p) p
                  :: post) a)) /\
  (forall title id newId now k a j p pre ph post,
     id <> "" -> nth_error (areas d) k = Some a ->
     nth_error (area_projects a) j = Some p ->
     project_phases p = pre ++ ph :: post -> phase_id ph = id ->
     (forall x, In x pre -> phase_id x <> id) ->
     exists a',
       nth_error (areas (handleAddTask title TPhase (Some id) newId now d)) k
         = Some a' /\
       nth_error (area_projects a') j =
       Some (set_project_phases
               (pre ++ set_phase_tasks
                         (newTask title newId now :: phase_tasks ph) ph
                    :: post) p)) /\
  (forall title areaId newId startDate endDate pre a post,
     areas d = pre ++ a :: post -> area_id a = areaId ->
     (forall x, In x pre -> area_id x <> areaId) ->
     areas (handleAddProject title areaId newId startDate endDate d) =
     pre ++ set_area_projects
              (newProject title newId startDate endDate :: area_projects a) a
         :: post) /\
  (forall title projectId newId k a pre p post,
     nth_error (areas d) k = Some a ->
     area_projects a = pre ++ p :: post -> project_id p = projectId ->
     (forall x, In x pre -> project_id x <> projectId) ->
     nth_error (areas (handleAddPhase title projectId newId d)) k =
     Some (set_area_projects
             (pre ++ set_project_phases
                       (project_phases p ++ [newPhase title newId]) p
                  :: post) a)).
Proof.
  repeat split.
  - intros title newId Ht. unfold handleAddGroup.
    apply String.eqb_neq in Ht. now rewrite Ht.
  - intros title id newId now pre a post Hid Hd Ha Hpre.
    unfold handleAddTask, insert_task, given.
    apply String.eqb_neq in Hid. rewrite Hid. cbn [areas set_areas].
    rewrite Hd.
    apply (update_first_split (is_area id)
             (unshift_area_task (newTask title newId now))).
    + unfold is_area. now apply String.eqb_eq.
    + intros y Hy. unfold is_area. apply String.eqb_neq. now apply Hpre.
  - intros title id newId now k a pre p post Hid Hk Hp Hpid Hpre.
    unfold handleAddTask, insert_task, given.
    apply String.eqb_neq in Hid. rewrite Hid. cbn [areas set_areas].
    rewrite nth_error_map, Hk. cbn [option_map]. do 2 f_equal.
    rewrite Hp.
    apply (update_first_split (is_project id)
             (unshift_project_task (newTask title newId now))).
    + unfold is_project. now apply String.eqb_eq.
    + intros y Hy. unfold is_project. apply String.eqb_neq. now apply Hpre.
  - intros title id newId now k a j p pre ph post Hid Hk Hj Hp Hph Hpre.
    unfold handleAddTask, insert_task, given.
    apply String.eqb_neq in Hid. rewrite Hid. cbn [areas set_areas].
    rewrite nth_error_map, Hk. cbn [option_map]. eexists. split; [reflexivity|].
    cbn [area_projects set_area_projects].
    rewrite nth_error_map, Hj. cbn [option_map]. do 2 f_equal.
    rewrite Hp.
    apply (update_first_split (is_phase id)
             (unshift_phase_task (newTask title newId now))).
    + unfold is_phase. now apply String.eqb_eq.
    + intros y Hy. unfold is_phase. apply String.eqb_neq. now apply Hpre.
  - intros title areaId newId startDate endDate pre a post Hd Ha Hpre.
    unfold handleAddProject. cbn [areas set_areas]. rewrite Hd.
    apply (update_first_split (is_area areaId)
             (fun area => set_area_projects
                (newProject title newId startDate endDate
                   :: area_projects area) area)).
    + unfold is_area. now apply String.eqb_eq.
    + intros y Hy. unfold is_area. apply String.eqb_neq. now apply Hpre.
  - intros title projectId newId k a pre p post Hk Hp Hpid Hpre.
    unfold handleAddPhase. cbn [areas set_areas].
    rewrite nth_error_map, Hk. cbn [option_map]. do 2 f_equal.
    rewrite Hp.
    apply (update_first_split (is_project projectId)
             (fun project => set_project_phases
                (project_phases project ++ [newPhase title newId]) project)).
    + unfold is_project. now apply String.eqb_eq.
    + intros y Hy. unfold is_project. apply String.eqb_neq. now apply Hpre.
Qed.

Lemma creation_positions_witness :
  areaGroups (handleAddGroup "Work" "g2" doc1) =
    areaGroups doc1 ++ [{| group_id := "g2"; group_title := "Work" |}] /\
  areas (handleAddTask "Run" TArea (Some "a1") "t9" "now" doc1) =
    [set_area_tasks (newTask "Run" "t9" "now" :: area_tasks area1) area1] /\
  areas (handleAddProject "Read" "a1" "p2" "s" "e" doc1) =
    [set_area_projects (newProject "Read" "p2" "s" "e" :: area_projects area1)
       area1] /\
  nth_error (areas (handleAddPhase "Do" "p1" "ph2" doc1)) 0 =
    Some (set_area_projects
            [set_project_phases
               (project_phases project1 ++ [newPhase "Do" "ph2"]) project1]
            area1).
Proof.
  destruct (creation_positions doc1)
    as (_ & Hgroup & _ & Harea & _ & _ & Hproject & Hphase).
  split; [|split; [|split]].
  - apply Hgroup. discriminate.
  - apply (Harea "Run" "a1" "t9" "now" [] area1 []).
    + discriminate.
    + reflexivity.
    + reflexivity.
    + intros x [].
  - apply (Hproject "Read" "a1" "p2" "s" "e" [] area1 []).
    + reflexivity.
    + reflexivity.
    + intros x [].
  - apply (Hphase "Do" "p1" "ph2" 0 area1 [] project1 []).
    + reflexivity.
    + reflexivity.
    + reflexivity.
    + intros x [].
Defined.

(** Against C2 as stated: with one area and one group already there, the
    new area and the new group are not at index 0. *)
Lemma createArea_createGroup_not_at_front :
  nth_error (areas (addArea "Home" "briefcase" None "a2" doc1)) 0 <>
    Some (newArea "Home" "briefcase" None "a2") /\
  nth_error (areaGroups (handleAddGroup "Work" "g2" doc1)) 0 <>
    Some {| group_id := "g2"; group_title := "Work" |}.
Proof. split; simpl; discriminate. Qed.

End CreationFacts.

(** ** Attaching a file to a task *)

Section UploadFacts.
Import Samples.







End UploadFacts.

(** ** Moving a task *)

Section MoveFacts.
Import Samples.

(** With distinct ids, taking out the first match takes out every match. *)
Lemma remove_first_keep_other taskId tasks :
  NoDup (map task_id tasks) ->
  remove_first (is_task taskId) tasks = keep_other taskId tasks.
Proof.
  unfold keep_other, is_task.
  induction tasks as [|t tasks IH]; simpl; [reflexivity|].
  intros Hnd. inversion Hnd as [|? ? Hnotin Hnd']; subst.
  destruct (task_id t =? taskId) eqn:E; simpl.
  - apply String.eqb_eq in E. symmetry. apply filter_fixed.
    intros x Hx. apply negb_true_iff, String.eqb_neq. intros Ex.
    apply Hnotin. rewrite E, <- Ex. now apply in_map.
  - now rewrite IH.
Qed.

Lemma removeFromList_fst taskId tasks m :
  fst (removeFromList taskId tasks m) = remove_first (is_task taskId) tasks.
Proof.
  unfold removeFromList. destruct (find _ tasks) eqn:E; simpl;
    [reflexivity | now rewrite remove_first_none].
Qed.

Lemma removeFromPhase_fst taskId ph m :
  fst (removeFromPhase taskId ph m) = removeFromPhase_tasks taskId ph.
Proof.
  unfold removeFromPhase, removeFromPhase_tasks.
  rewrite <- (removeFromList_fst taskId (phase_tasks ph) m).
  now destruct (removeFromList taskId (phase_tasks ph) m).
Qed.

Lemma removeFromProject_fst taskId p m :
  fst (removeFromProject taskId p m) = removeFromProject_tasks taskId p.
Proof.
  unfold removeFromProject, removeFromProject_tasks.
  rewrite <- (removeFromList_fst taskId (project_tasks p) m).
  destruct (removeFromList taskId (project_tasks p) m) as [ts m1].
  rewrite <- (forEach_with_fst (removeFromPhase taskId) _ (project_phases p)
                (removeFromPhase_fst taskId) m1).
  now destruct (forEach_with _ (project_phases p) m1).
Qed.

Lemma removeFromArea_fst taskId a m :
  fst (removeFromArea taskId a m) = removeFromArea_tasks taskId a.
Proof.
  unfold removeFromArea, removeFromArea_tasks.
  rewrite <- (removeFromList_fst taskId (area_tasks a) m).
  destruct (removeFromList taskId (area_tasks a) m) as [ts m1].
  rewrite <- (forEach_with_fst (removeFromProject taskId) _ (area_projects a)
                (removeFromProject_fst taskId) m1).
  now destruct (forEach_with _ (area_projects a) m1).
Qed.

Lemma removeEverywhere_fst taskId d :
  fst (removeEverywhere taskId d) =
  {| areaGroups := areaGroups d;
     areas := map (removeFromArea_tasks taskId) (areas d);
     inbox := remove_first (is_task taskId) (inbox d) |}.
Proof.
  unfold removeEverywhere.
  rewrite <- (removeFromList_fst taskId (inbox d) None).
  destruct (removeFromList taskId (inbox d) None) as [ts m0].
  rewrite <- (forEach_with_fst (removeFromArea taskId) _ (areas d)
                (removeFromArea_fst taskId) m0).
  now destruct (forEach_with _ (areas d) m0).
Qed.

Lemma containers_removeEverywhere taskId d :
  containers (fst (removeEverywhere taskId d)) =
  map (remove_first (is_task taskId)) (containers d).
Proof.
  rewrite removeEverywhere_fst.
  unfold containers. cbn [inbox areas map]. f_equal.
  rewrite flat_map_map, map_flat_map. apply flat_map_ext. intros a.
  unfold area_containers, removeFromArea_tasks. cbn [map]. f_equal.
  cbn [area_projects set_area_projects].
  rewrite flat_map_map, map_flat_map. apply flat_map_ext. intros p.
  unfold project_containers, removeFromProject_tasks. cbn [map]. f_equal.
  cbn [project_phases set_project_phases]. rewrite !map_map. reflexivity.
Qed.

(** Under the invariant the first half of [moveTask] leaves the
    document [deleteTask] would. *)
Lemma removeEverywhere_deleteTask taskId d :
  one_location d ->
  containers (fst (removeEverywhere taskId d)) =
  containers (deleteTask taskId d).
Proof.
  intros Hone. rewrite containers_removeEverywhere, containers_deleteTask.
  apply map_ext_in. intros c Hc. apply remove_first_keep_other.
  exact (NoDup_concat_elem task_id _ c Hone Hc).
Qed.

Lemma all_tasks_removeEverywhere taskId d :
  one_location d ->
  all_tasks (fst (removeEverywhere taskId d)) = keep_other taskId (all_tasks d).
Proof.
  intros Hone. unfold all_tasks at 1.
  rewrite (removeEverywhere_deleteTask taskId d Hone).
  apply all_tasks_deleteTask.
Qed.

Lemma removed_absent taskId d :
  one_location d ->
  ~ In taskId (all_task_ids (fst (removeEverywhere taskId d))).
Proof.
  intros Hone Hin. unfold all_task_ids in Hin.
  rewrite (all_tasks_removeEverywhere taskId d Hone) in Hin.
  apply in_map_iff in Hin as (t & Hid & Ht).
  apply keep_other_spec in Ht. tauto.
Qed.

Lemma removed_one_location taskId d :
  one_location d -> one_location (fst (removeEverywhere taskId d)).
Proof.
  intros Hone. unfold one_location, all_task_ids.
  rewrite (all_tasks_removeEverywhere taskId d Hone).
  now apply NoDup_map_filter.
Qed.

(** The task [moveTask] carries has the id that was searched. *)
Lemma removeFromList_id taskId tasks m :
  (forall t, m = Some t -> task_id t = taskId) ->
  forall t, snd (removeFromList taskId tasks m) = Some t -> task_id t = taskId.
Proof.
  intros Hm t. unfold removeFromList.
  destruct (find (is_task taskId) tasks) as [t0|] eqn:E; simpl.
  - intros [= <-]. apply find_some in E as [_ E].
    now apply String.eqb_eq in E.
  - apply Hm.
Qed.

Lemma removeEverywhere_id taskId d t :
  snd (removeEverywhere taskId d) = Some t -> task_id t = taskId.
Proof.
  set (P := fun m : option Task => forall t, m = Some t -> task_id t = taskId).
  assert (Hlist : forall tasks m, P m -> P (snd (removeFromList taskId tasks m)))
    by (intros tasks m Hm; exact (removeFromList_id taskId tasks m Hm)).
  assert (Hphase : forall ph m, P m -> P (snd (removeFromPhase taskId ph m))).
  { intros ph m Hm. unfold removeFromPhase.
    specialize (Hlist (phase_tasks ph) m Hm).
    now destruct (removeFromList taskId (phase_tasks ph) m). }
  assert (Hproject : forall p m, P m -> P (snd (removeFromProject taskId p m))).
  { intros p m Hm. unfold removeFromProject.
    specialize (Hlist (project_tasks p) m Hm).
    destruct (removeFromList taskId (project_tasks p) m) as [ts m1].
    pose proof (forEach_with_snd _ P (project_phases p) Hphase m1 Hlist) as H.
    now destruct (forEach_with _ (project_phases p) m1). }
  assert (Harea : forall a m, P m -> P (snd (removeFromArea taskId a m))).
  { intros a m Hm. unfold removeFromArea.
    specialize (Hlist (area_tasks a) m Hm).
    destruct (removeFromList taskId (area_tasks a) m) as [ts m1].
    pose proof (forEach_with_snd _ P (area_projects a) Hproject m1 Hlist) as H.
    now destruct (forEach_with _ (area_projects a) m1). }
  unfold removeEverywhere.
  assert (H0 : P None) by (intros ? [=]).
  specialize (Hlist (inbox d) None H0).
  destruct (removeFromList taskId (inbox d) None) as [ts m0].
  pose proof (forEach_with_snd _ P (areas d) Harea m0 Hlist) as H.
  destruct (forEach_with _ (areas d) m0). exact (H t).
Qed.

(** A task that is somewhere in the document is found. *)
Lemma removeFromList_found taskId tasks m :
  snd (removeFromList taskId tasks m) = None ->
  m = None /\ count_in taskId tasks = 0.
Proof.
  unfold removeFromList.
  destruct (find (is_task taskId) tasks) as [t0|] eqn:E; simpl;
    [discriminate|].
  intros ->. split; [reflexivity|].
  destruct (count_in taskId tasks) eqn:C; [reflexivity|exfalso].
  assert (Hin : In taskId (map task_id tasks))
    by (apply count_in_pos; lia).
  apply in_map_iff in Hin as (t & Hid & Ht).
  pose proof (find_none _ _ E t Ht) as Hf. unfold is_task in Hf.
  apply String.eqb_neq in Hf. contradiction.
Qed.

Lemma removeEverywhere_found taskId d :
  snd (removeEverywhere taskId d) = None -> occurrences taskId d = 0.
Proof.
  assert (Hphase : forall ph m, snd (removeFromPhase taskId ph m) = None ->
            m = None /\ count_in taskId (phase_tasks ph) = 0).
  { intros ph m. unfold removeFromPhase.
    pose proof (removeFromList_found taskId (phase_tasks ph) m) as H.
    now destruct (removeFromList taskId (phase_tasks ph) m). }
  assert (Hproject : forall p m, snd (removeFromProject taskId p m) = None ->
            m = None /\
            count_in taskId (project_tasks p) + phase_count taskId p = 0).
  { intros p m. unfold removeFromProject.
    pose proof (removeFromList_found taskId (project_tasks p) m) as H.
    destruct (removeFromList taskId (project_tasks p) m) as [ts m1].
    pose proof (forEach_with_found _ _ (project_phases p) Hphase m1) as H1.
    destruct (forEach_with _ (project_phases p) m1) as [phs m2].
    simpl in *. intros ->. destruct (H1 eq_refl) as [-> Hall].
    destruct (H eq_refl) as [-> Hc]. split; [reflexivity|].
    unfold phase_count.
    rewrite (Forall_sum_zero (fun ph => count_in taskId (phase_tasks ph)) _ Hall).
    lia. }
  assert (Harea : forall a m, snd (removeFromArea taskId a m) = None ->
            m = None /\
            direct_count taskId a + nested_count taskId a = 0).
  { intros a m. unfold removeFromArea.
    pose proof (removeFromList_found taskId (area_tasks a) m) as H.
    destruct (removeFromList taskId (area_tasks a) m) as [ts m1].
    pose proof (forEach_with_found _ _ (area_projects a) Hproject m1) as H1.
    destruct (forEach_with _ (area_projects a) m1) as [ps m2].
    simpl in *. intros ->. destruct (H1 eq_refl) as [-> Hall].
    destruct (H eq_refl) as [-> Hc]. split; [reflexivity|].
    unfold direct_count, nested_count. rewrite Hc.
    rewrite <- Nat.add_assoc, <- list_sum_plus.
    now rewrite (Forall_sum_zero _ _ Hall). }
  unfold removeEverywhere.
  pose proof (removeFromList_found taskId (inbox d) None) as H.
  destruct (removeFromList taskId (inbox d) None) as [ts m0].
  pose proof (forEach_with_found _ _ (areas d) Harea m0) as H1.
  destruct (forEach_with _ (areas d) m0) as [ars m1].
  simpl in *. intros ->. destruct (H1 eq_refl) as [-> Hall].
  destruct (H eq_refl) as [_ Hc].
  rewrite occurrences_split, Hc, <- list_sum_plus.
  now rewrite (Forall_sum_zero _ _ Hall).
Qed.

Lemma insert_task_unmatched t targetType targetId d :
  unmatched targetType targetId d ->
  insert_task t targetType targetId d = d.
Proof.
  unfold unmatched, insert_task.
  destruct targetType, (given targetId) as [i|]; try tauto; intros H.
  - rewrite update_first_none; [apply set_areas_same|].
    intros a Ha. apply String.eqb_neq. now apply H.
  - rewrite map_fixed; [apply set_areas_same|]. intros a Ha.
    rewrite update_first_none; [apply set_area_projects_same|].
    intros p Hp. apply String.eqb_neq. now apply (H a p).
  - rewrite map_fixed; [apply set_areas_same|]. intros a Ha.
    rewrite map_fixed; [apply set_area_projects_same|]. intros p Hp.
    rewrite update_first_none; [apply set_project_phases_same|].
    intros ph Hph. apply String.eqb_neq. now apply (H a p ph).
Qed.

Lemma unmatched_removeEverywhere taskId targetType targetId d :
  unmatched targetType targetId d ->
  unmatched targetType targetId (fst (removeEverywhere taskId d)).
Proof.
  rewrite removeEverywhere_fst. unfold unmatched. cbn [areas].
  destruct targetType, (given targetId) as [i|]; try tauto; intros H.
  - intros a Ha. apply in_map_iff in Ha as (a0 & <- & Ha0).
    now apply (H a0).
  - intros a p Ha Hp. apply in_map_iff in Ha as (a0 & <- & Ha0).
    cbn in Hp. apply in_map_iff in Hp as (p0 & <- & Hp0).
    now apply (H a0 p0).
  - intros a p ph Ha Hp Hph. apply in_map_iff in Ha as (a0 & <- & Ha0).
    cbn in Hp. apply in_map_iff in Hp as (p0 & <- & Hp0).
    cbn in Hph. apply in_map_iff in Hph as (ph0 & <- & Hph0).
    now apply (H a0 p0 ph0).
Qed.

(** X19. Whenever the target is not the inbox and matches nothing, a task
    that was in the document is in no container afterwards. *)
Lemma moveTask_unmatched_loses_task taskId targetType targetId d :
  one_location d -> 0 < occurrences taskId d ->
  unmatched targetType targetId d ->
  occurrences taskId (moveTask taskId targetType targetId d) = 0.
Proof.
  intros Hone Hocc Hun. unfold moveTask.
  pose proof (removeEverywhere_found taskId d) as Hfound.
  pose proof (removed_absent taskId d Hone) as Habs.
  pose proof (unmatched_removeEverywhere taskId _ _ d Hun) as Hun'.
  destruct (removeEverywhere taskId d) as [newData [t|]]; simpl in *.
  - rewrite insert_task_unmatched by exact Hun'.
    now apply count_occ_not_In.
  - specialize (Hfound eq_refl). lia.
Qed.

(** Into the inbox the move keeps the invariant and the task. *)
Lemma moveTask_inbox_preserves taskId targetId d :
  one_location d ->
  one_location (moveTask taskId TInbox targetId d) /\
  (0 < occurrences taskId d ->
   occurrences taskId (moveTask taskId TInbox targetId d) = 1).
Proof.
  intros Hone. unfold moveTask.
  pose proof (removeEverywhere_found taskId d) as Hfound.
  pose proof (removeEverywhere_id taskId d) as Hid.
  pose proof (removed_absent taskId d Hone) as Habs.
  pose proof (removed_one_location taskId d Hone) as Hone'.
  destruct (removeEverywhere taskId d) as [newData [t|]];
    simpl in *.
  - specialize (Hid t eq_refl).
    assert (Hids : all_task_ids (set_inbox (t :: inbox newData) newData) =
                   taskId :: all_task_ids newData)
      by (unfold all_task_ids, all_tasks, containers; simpl; now rewrite Hid).
    split.
    + unfold one_location. rewrite Hids. now constructor.
    + intros _. unfold occurrences. rewrite Hids. simpl.
      destruct (string_dec taskId taskId) as [_|C]; [|contradiction].
      apply (count_occ_not_In string_dec) in Habs. now rewrite Habs.
  - split; [exact Hone|]. intros Hpos. specialize (Hfound eq_refl). lia.
Qed.

(** C1, at a target that matches nothing.  [doc1] satisfies the
    one-location invariant and holds task t1 once, in the inbox.  Moved
    to an area id no area carries, t1 is taken out of the inbox and put
    nowhere: the document [moveTask] returns holds it in no container.
    [moveProject], on the same kind of target, returns the document as it
    was. *)
Theorem moveTask_missing_target_drops_task :
  one_location doc1 /\
  occurrences "t1" doc1 = 1 /\
  unmatched TArea (Some "a404") doc1 /\
  moveTask "t1" TArea (Some "a404") doc1 = set_inbox [] doc1 /\
  occurrences "t1" (moveTask "t1" TArea (Some "a404") doc1) = 0 /\
  moveProject "p1" "a404" doc1 = doc1.
Proof.
  split; [exact doc1_one_location|].
  split; [reflexivity|].
  split; [intros a [<-|[]]; discriminate|].
  repeat split.
Qed.

End MoveFacts.

(** ** More on the sync engine *)

Section SessionFacts.
Import JS Normalizer SyncEngine Session Samples MoreSamples.

Lemma step_user e s : user (step s e) = user s.
Proof.
  destruct e as [d|ms|o]; simpl.
  - unfold setData, saveEffect. simpl. destruct (user s) eqn:E; simpl; auto.
  - unfold elapse. simpl. destruct (saveTimeout s) as [t|]; [|reflexivity].
    now destruct (deadline t <=? clock s + ms)%nat.
  - now destruct o.
Qed.

Lemma step_coherent e s : coherent s -> coherent (step s e).
Proof.
  unfold coherent. destruct e as [d|ms|o]; simpl; intros H.
  - unfold setData, saveEffect. simpl. now destruct (user s).
  - unfold elapse. simpl. destruct (saveTimeout s) as [t|]; [|exact H].
    now destruct (deadline t <=? clock s + ms)%nat.
  - now destruct o.
Qed.

Lemma run_cons e evs s : run (e :: evs) s = run evs (step s e).
Proof. reflexivity. Qed.

(** X1. The local cache follows the document.  If the cache
    entry is the document in memory, it still is after any sequence of
    edits, pauses and upsert results, and after a load for any answer of
    the store: every path that changes the document also writes it to
    [localStorage]. *)
Theorem cache_follows_document (s : State) :
  coherent s ->
  (forall evs, coherent (run evs s)) /\
  (forall read seed, coherent (loadEffect read seed s)).
Proof.
  intros H. split.
  - intros evs. revert s H. induction evs as [|e evs IH]; intros s H;
      [exact H|].
    rewrite run_cons. apply IH. now apply step_coherent.
  - intros read seed. unfold coherent, loadEffect in *.
    destruct (user s) as [uid|]; [|exact H].
    destruct (loadedFromCloud s); [exact H|].
    unfold loadFromCloud.
    destruct read as [row error|msg]; [|exact H].
    destruct (blocking error); [exact H|].
    destruct (present row) as [doc|].
    + destruct (normalizeData doc); [reflexivity | exact H].
    + cbn [localData log setSyncing localStorage].
      destruct (truthy _); [destruct seed|]; exact H.
Qed.

Lemma cache_follows_document_witness :
  coherent (run [Edit (VNum 1); Elapse 2000; UpsertReturns (UpsertError "x");
                 Edit (VNum 2)] session1) /\
  coherent (loadEffect (ReadReturns (Some (VObj [])) None) UpsertOk session1).
Proof.
  assert (H : coherent session1) by reflexivity.
  split; apply (cache_follows_document session1 H).
Defined.

(** X2. Without a signed-in user nothing is sent.  With
    [user] null and no timer pending, no sequence of edits, pauses and
    upsert results adds a remote read or upsert to the trace: the save
    effect returns before it sets a timer. *)
Theorem no_identity_no_remote_call (s : State) (evs : list Event) :
  user s = None -> saveTimeout s = None ->
  filter is_remote (trace (run evs s)) = filter is_remote (trace s).
Proof.
  revert s. induction evs as [|e evs IH]; intros s Hu Ht; [reflexivity|].
  rewrite run_cons.
  assert (H : user (step s e) = None /\ saveTimeout (step s e) = None /\
              filter is_remote (trace (step s e)) =
              filter is_remote (trace s)).
  { destruct e as [d|ms|o]; simpl.
    - unfold setData, saveEffect. simpl. rewrite Hu. simpl. auto.
    - unfold elapse. simpl. rewrite Ht. simpl. auto.
    - destruct o; simpl; auto. }
  destruct H as (Hu' & Ht' & Hf). rewrite <- Hf. now apply IH.
Qed.

Lemma no_identity_no_remote_call_witness :
  filter is_remote
    (trace (run [Edit (VNum 1); Elapse 5000; Edit (VNum 2); Elapse 5000]
              guest0)) = [].
Proof.
  apply (no_identity_no_remote_call guest0
           [Edit (VNum 1); Elapse 5000; Edit (VNum 2); Elapse 5000]);
    reflexivity.
Defined.

(** X3. Teardown and sign-out drop the pending write.  After
    an edit, running the cleanup of the save effect (unmount), or [user]
    becoming null, cancels the timer: however long one waits, the trace
    gains no upsert.  Sign-out also writes the cache once more and resets
    the [loadedFromCloud] guard. *)
Theorem teardown_drops_pending_write (s : State) (d : value) (ms : nat) :
  trace (elapse ms (cleanup (setData d s))) = LocalWrite d :: trace s /\
  trace (elapse ms (signOut (setData d s))) =
    LocalWrite d :: LocalWrite d :: trace s /\
  loadedFromCloud (signOut (setData d s)) = false.
Proof.
  unfold cleanup, signOut, setData, saveEffect, elapse. simpl.
  destruct (user s); simpl; auto.
Qed.

(** X4. A load either completes or fails, and always ends the
    syncing state.  For a signed-in user with the guard unset, after
    [loadFromCloud] [syncing] is false and either the guard is set, the
    error is cleared and the load effect does nothing when it runs again,
    or the guard is still unset, the document is the one before and an
    error message is recorded. *)
Theorem load_completes_or_fails (s : State) (uid : string)
  (read : ReadOutcome) (seed : UpsertOutcome) :
  user s = Some uid -> loadedFromCloud s = false ->
  let s' := loadEffect read seed s in
  syncing s' = false /\
  ((loadedFromCloud s' = true /\ lastSyncError s' = None /\
    forall read2 seed2, loadEffect read2 seed2 s' = s') \/
   (loadedFromCloud s' = false /\ data s' = data s /\
    exists msg, lastSyncError s' = Some msg)).
Proof.
  intros Hu Hl s'. subst s'.
  rewrite (loadEffect_loads s uid read seed Hu Hl). unfold loadFromCloud.
  assert (Hdone : forall s0, user s0 = Some uid ->
            let s1 := setSyncing false (setLastSyncError None
                        (set_loadedFromCloud true s0)) in
            forall read2 seed2, loadEffect read2 seed2 s1 = s1).
  { intros s0 H0 s1 read2 seed2. unfold loadEffect. subst s1. simpl.
    now rewrite H0. }
  assert (Hfail : forall msg s0, loadedFromCloud s0 = false ->
            data s0 = data s ->
            syncing (catch msg s0) = false /\
            ((loadedFromCloud (catch msg s0) = true /\
              lastSyncError (catch msg s0) = None /\
              forall read2 seed2,
                loadEffect read2 seed2 (catch msg s0) = catch msg s0) \/
             (loadedFromCloud (catch msg s0) = false /\
              data (catch msg s0) = data s /\
              exists m, lastSyncError (catch msg s0) = Some m))).
  { intros msg s0 H0 H1. split; [reflexivity|]. right. simpl. eauto. }
  destruct read as [row error|msg].
  - destruct (blocking error) as [e|].
    + exact (Hfail (message e) (log (RemoteRead uid) (setSyncing true s))
               Hl eq_refl).
    + destruct (present row) as [doc|].
      * destruct (normalizeData doc) as [cloud|msg].
        -- split; [reflexivity|]. left. repeat split.
           apply Hdone. exact Hu.
        -- exact (Hfail msg (log (RemoteRead uid) (setSyncing true s))
                    Hl eq_refl).
      * cbn [localData log setSyncing localStorage].
        destruct (truthy _).
        -- destruct seed.
           ++ split; [reflexivity|]. left. repeat split.
              apply Hdone. exact Hu.
           ++ split; [reflexivity|]. left. repeat split.
              apply Hdone. exact Hu.
           ++ exact (Hfail msg
                       (upsert uid (localData (log (RemoteRead uid)
                                                 (setSyncing true s)))
                          (log (RemoteRead uid) (setSyncing true s)))
                       Hl eq_refl).
        -- split; [reflexivity|]. left. repeat split.
           apply Hdone. exact Hu.
  - exact (Hfail msg (log (RemoteRead uid) (setSyncing true s)) Hl eq_refl).
Qed.

Lemma load_completes_or_fails_witness :
  loadedFromCloud
    (loadEffect (ReadReturns (Some (VObj [])) None) UpsertOk session1) = true /\
  loadedFromCloud (loadEffect (ReadThrows "offline") UpsertOk session1) = false.
Proof.
  split.
  - destruct (load_completes_or_fails session1 "u1"
                (ReadReturns (Some (VObj [])) None) UpsertOk
                eq_refl eq_refl) as (_ & [(H & _) | (H & _)]);
      [exact H | discriminate H].
  - destruct (load_completes_or_fails session1 "u1"
                (ReadThrows "offline") UpsertOk
                eq_refl eq_refl) as (_ & [(H & _) | (H & _)]);
      [discriminate H | exact H].
Defined.

(** X5. The seed upsert of a new user ignores the error the
    store returns.  When the read finds no row and the cache holds a
    document, the cached document is upserted; an error in the returned
    result is not looked at (the guard is set and [lastSyncError] is
    null), while a thrown error is recorded and leaves the guard unset. *)
Theorem seed_upsert_error_is_dropped (s : State) (uid : string)
  (row : option value) (error : option StoreError) (localDoc : value) :
  user s = Some uid -> loadedFromCloud s = false ->
  blocking error = None -> present row = None ->
  localStorage s = Some localDoc -> truthy localDoc = true ->
  (forall msg,
     let s' := loadEffect (ReadReturns row error) (UpsertError msg) s in
     lastSyncError s' = None /\ loadedFromCloud s' = true /\
     trace s' = RemoteUpsert uid localDoc :: RemoteRead uid :: trace s) /\
  (forall msg,
     let s' := loadEffect (ReadReturns row error) (UpsertThrows msg) s in
     lastSyncError s' = Some msg /\ loadedFromCloud s' = false /\
     trace s' = RemoteUpsert uid localDoc :: RemoteRead uid :: trace s).
Proof.
  intros Hu Hl Hb Hr Hc Ht.
  split; intros msg s'; subst s';
    rewrite (loadEffect_loads s uid _ _ Hu Hl); unfold loadFromCloud;
    rewrite Hb, Hr; unfold localData; cbn [log setSyncing localStorage];
    rewrite Hc, Ht; simpl; auto.
Qed.

Lemma seed_upsert_error_is_dropped_witness :
  lastSyncError
    (loadEffect (ReadReturns None
                   (Some {| code := "PGRST116"; message := "no rows" |}))
       (UpsertError "row too large") session1) = None.
Proof.
  apply (seed_upsert_error_is_dropped session1 "u1" None
           (Some {| code := "PGRST116"; message := "no rows" |})
           (VObj [("inbox", VArr [])]));
    reflexivity.
Defined.

Lemma elapse_user ms s : user (elapse ms s) = user s.
Proof. exact (step_user (Elapse ms) s). Qed.

(** X6. Edits at least 1000 ms apart are each sent.  For a
    signed-in user, when every edit is followed by a pause of at least
    [DEBOUNCE_MS], the trace gains, per edit and in order, one cache write
    and one upsert of that edit's document. *)
Theorem spaced_edits_are_each_sent (s : State) (uid : string)
  (edits : list (value * nat)) :
  user s = Some uid ->
  (forall d pause, In (d, pause) edits -> DEBOUNCE_MS <= pause) ->
  trace (run (spaced edits) s) =
  rev (flat_map (fun e => [LocalWrite (fst e); RemoteUpsert uid (fst e)])
         edits) ++ trace s.
Proof.
  revert s. induction edits as [|[d pause] edits IH]; intros s Hu Hp;
    [reflexivity|].
  cbn [spaced]. rewrite !run_cons. cbn [step].
  destruct (setData_settled d s) as (Hs & Hu1 & Ht1).
  destruct (settled_fires d (setData d s) pause Hs
              (Hp d pause (or_introl eq_refl))) as (Ht2 & _).
  rewrite IH.
  - rewrite Ht2, Hu1, Hu, Ht1. cbn [flat_map rev fst app].
    now rewrite <- !app_assoc.
  - now rewrite elapse_user, Hu1.
  - intros d0 p0 H. apply (Hp d0 p0). now right.
Qed.

Lemma spaced_edits_are_each_sent_witness :
  trace (run (spaced [(VNum 1, 1000); (VNum 2, 3000)]) session0) =
  [RemoteUpsert "u1" (VNum 2); LocalWrite (VNum 2);
   RemoteUpsert "u1" (VNum 1); LocalWrite (VNum 1)].
Proof.
  apply (spaced_edits_are_each_sent session0 "u1"
           [(VNum 1, 1000); (VNum 2, 3000)] eq_refl).
  intros d pause [H|[H|[]]]; injection H as _ <-; unfold DEBOUNCE_MS; lia.
Defined.

Lemma step_timer_current e s : timer_current s -> timer_current (step s e).
Proof.
  unfold timer_current. destruct e as [d|ms|o]; simpl; intros H t.
  - unfold setData, saveEffect. simpl.
    destruct (user s) as [u|] eqn:E; simpl; rewrite ?E; intros Ht.
    + injection Ht as <-. simpl. auto.
    + discriminate Ht.
  - unfold elapse. simpl. destruct (saveTimeout s) as [t0|] eqn:E.
    + destruct (deadline t0 <=? clock s + ms)%nat; simpl; intros Ht.
      * discriminate Ht.
      * rewrite E in Ht. injection Ht as <-. now apply H.
    + simpl. rewrite E. intros Ht. discriminate Ht.
  - destruct o; simpl; apply H.
Qed.

(** X7. A debounced upsert carries the document in memory.
    From a state whose pending timer (if any) was set for the current
    document and user, after any sequence of events a pause either sends
    nothing or sends exactly one upsert, of the document then in memory,
    for the user then signed in. *)
Theorem upsert_carries_current_document (s : State) (evs : list Event)
  (ms : nat) :
  timer_current s ->
  let s1 := run evs s in
  trace (elapse ms s1) = trace s1 \/
  exists uid, user s1 = Some uid /\
    trace (elapse ms s1) = RemoteUpsert uid (data s1) :: trace s1.
Proof.
  intros H s1.
  assert (H1 : timer_current s1).
  { subst s1. revert s H. induction evs as [|e evs IH]; intros s H;
      [exact H|].
    rewrite run_cons. apply IH. now apply step_timer_current. }
  unfold elapse. simpl. destruct (saveTimeout s1) as [t|] eqn:E;
    [|now left].
  destruct (deadline t <=? clock s1 + ms)%nat; [|now left].
  right. destruct (H1 t E) as [Hd Hu]. exists (timer_user t).
  split; [exact Hu|]. simpl. now rewrite Hd.
Qed.

Lemma upsert_carries_current_document_witness :
  trace (elapse 1000 (run [Edit (VNum 1); Elapse 10; Edit (VNum 7)] session0))
  = trace (run [Edit (VNum 1); Elapse 10; Edit (VNum 7)] session0) \/
  exists uid,
    user (run [Edit (VNum 1); Elapse 10; Edit (VNum 7)] session0) = Some uid /\
    trace (elapse 1000
             (run [Edit (VNum 1); Elapse 10; Edit (VNum 7)] session0)) =
    RemoteUpsert uid
      (data (run [Edit (VNum 1); Elapse 10; Edit (VNum 7)] session0))
    :: trace (run [Edit (VNum 1); Elapse 10; Edit (VNum 7)] session0).
Proof.
  apply (upsert_carries_current_document session0
           [Edit (VNum 1); Elapse 10; Edit (VNum 7)] 1000).
  intros t H. discriminate H.
Defined.

End SessionFacts.

(** ** More on the normalizer *)

Section ShapeFacts.
Import JS Normalizer Shape.

Ltac read_props :=
  repeat match goal with
  | |- context [lookup ?k (set_field ?k' ?v ?ps)] =>
      first [ rewrite (lookup_set_field_ne k k' v ps) by reflexivity
            | rewrite (lookup_set_field_eq k v ps) ]
  end.

Ltac open_binds H :=
  repeat match type of H with
  | bind _ _ = Ok _ =>
      let x := fresh "x" in
      let Hx := fresh "Hx" in
      apply bind_Ok_inv in H as (x & Hx & H)
  end.

Lemma truthy_orElse x d : truthy d = true -> truthy (orElse x d) = true.
Proof.
  intros Hd. destruct x as [v|]; simpl; [|exact Hd].
  destruct (truthy v) eqn:E; [exact E | exact Hd].
Qed.

Lemma text_orElse x s : textual (orElse x (VStr s)) = true.
Proof.
  destruct x as [v|]; simpl; [|reflexivity].
  destruct (truthy v) eqn:E; [|reflexivity]. now destruct v.
Qed.

Lemma mapM_forall {A B} (f : A -> result B) (p : B -> bool) :
  (forall x y, f x = Ok y -> p y = true) ->
  forall l l', mapM f l = Ok l' -> forallb p l' = true.
Proof.
  intros Hf. induction l as [|x l IH]; simpl; intros l' H.
  - now injection H as <-.
  - apply bind_Ok_inv in H as (y & Hy & H).
    apply bind_Ok_inv in H as (ys & Hys & H). injection H as <-.
    simpl. now rewrite (Hf _ _ Hy), (IH _ Hys).
Qed.

Lemma array_map_forall (f : value -> result value) (p : value -> bool) :
  (forall x y, f x = Ok y -> p y = true) ->
  forall a a', array_map f a = Ok a' ->
    exists items, a' = VArr items /\ forallb p items = true.
Proof.
  intros Hf a a' H. destruct a; try discriminate. simpl in H.
  apply bind_Ok_inv in H as (l & Hl & H). injection H as <-.
  exists l. split; [reflexivity|]. exact (mapM_forall f p Hf _ _ Hl).
Qed.

Lemma normalizeTask_complete t t' :
  normalizeTask t = Ok t' -> complete_task t' = true.
Proof.
  unfold normalizeTask. intros H. open_binds H. injection H as <-.
  unfold complete_task, text_field, truthy_field. read_props.
  rewrite text_orElse, !truthy_orElse by reflexivity. reflexivity.
Qed.

Lemma normalizePhase_complete ph ph' :
  normalizePhase ph = Ok ph' -> complete_phase ph' = true.
Proof.
  unfold normalizePhase. intros H. open_binds H. injection H as <-.
  destruct (array_map_forall _ _ normalizeTask_complete _ _ Hx3)
    as (ts & -> & Hts).
  unfold complete_phase, array_field, truthy_field. read_props.
  rewrite !truthy_orElse by reflexivity. now rewrite Hts.
Qed.

Lemma normalizeProject_complete p p' :
  normalizeProject p = Ok p' -> complete_project p' = true.
Proof.
  unfold normalizeProject. intros H. open_binds H. injection H as <-.
  destruct (array_map_forall _ _ normalizeTask_complete _ _ Hx3)
    as (ts & -> & Hts).
  destruct (array_map_forall _ _ normalizePhase_complete _ _ Hx5)
    as (phs & -> & Hphs).
  unfold complete_project, array_field, truthy_field. read_props.
  rewrite !truthy_orElse by reflexivity. now rewrite Hts, Hphs.
Qed.

Lemma normalizeArea_complete a a' :
  normalizeArea a = Ok a' -> complete_area a' = true.
Proof.
  unfold normalizeArea. intros H. open_binds H. injection H as <-.
  destruct (array_map_forall _ _ normalizeTask_complete _ _ Hx2)
    as (ts & -> & Hts).
  destruct (array_map_forall _ _ normalizeProject_complete _ _ Hx4)
    as (ps & -> & Hps).
  unfold complete_area, array_field, truthy_field, text_field. read_props.
  rewrite text_orElse, !truthy_orElse by reflexivity. now rewrite Hts, Hps.
Qed.

(** X8. A normalized document is complete.  Whenever
    [normalizeData] returns, the result has a truthy [areaGroups] and
    array-valued [inbox] and [areas]; every task has a string or truthy
    [description] and truthy [labels], [attachments] and [contextTags];
    every area, project and phase has its defaulted properties and
    array-valued task, project and phase lists. *)
Theorem normalizeData_completes (D D' : value) :
  normalizeData D = Ok D' -> complete_data D' = true.
Proof.
  unfold normalizeData. intros H. open_binds H. injection H as <-.
  destruct (array_map_forall _ _ normalizeTask_complete _ _ Hx1)
    as (ts & -> & Hts).
  destruct (array_map_forall _ _ normalizeArea_complete _ _ Hx3)
    as (ars & -> & Hars).
  unfold complete_data, array_field, truthy_field. read_props.
  rewrite !truthy_orElse by reflexivity. now rewrite Hts, Hars.
Qed.

Lemma normalizeData_completes_witness :
  complete_data
    (VObj [("inbox", VArr [VObj [("id", VStr "t"); ("description", VStr "");
                                 ("labels", VArr []); ("attachments", VArr []);
                                 ("contextTags", VArr [])]]);
           ("areaGroups", VArr []); ("areas", VArr [])]) = true.
Proof.
  apply (normalizeData_completes
           (VObj [("inbox", VArr [VObj [("id", VStr "t")]])])).
  reflexivity.
Defined.

Lemma set_field_absent k v ps :
  lookup k ps = None -> set_field k v ps = ps ++ [(k, v)].
Proof.
  induction ps as [|[k' v'] ps IH]; simpl; [reflexivity|].
  destruct (k' =? k); [discriminate|]. intros H. now rewrite IH.
Qed.

Lemma lookup_app_absent k ps qs :
  lookup k ps = None -> lookup k (ps ++ qs) = lookup k qs.
Proof.
  induction ps as [|[k' v'] ps IH]; simpl; [reflexivity|].
  destruct (k' =? k); [discriminate | exact IH].
Qed.

(** X9. An object without [areaGroups], [inbox] and [areas]
    is normalized to the same object with the three properties appended,
    in that order, each an empty array; its other properties are kept as
    they are. *)
Theorem normalizeData_fills_missing_collections
  (ps : list (string * value)) :
  lookup "areaGroups" ps = None ->
  lookup "inbox" ps = None ->
  lookup "areas" ps = None ->
  normalizeData (VObj ps) =
  Ok (VObj (ps ++ [("areaGroups", VArr []); ("inbox", VArr []);
                   ("areas", VArr [])])).
Proof.
  intros Hg Hi Ha. unfold normalizeData.
  rewrite !get_object, Hg, Hi, Ha. cbn [bind orElse array_map mapM own_props].
  rewrite (set_field_absent "areaGroups" _ ps Hg).
  rewrite (set_field_absent "inbox").
  - rewrite (set_field_absent "areas").
    + now rewrite <- !app_assoc.
    + now rewrite <- app_assoc, lookup_app_absent.
  - now rewrite lookup_app_absent.
Qed.

Lemma normalizeData_fills_missing_collections_witness :
  normalizeData (VObj [("version", VNum 2)]) =
  Ok (VObj [("version", VNum 2); ("areaGroups", VArr []);
            ("inbox", VArr []); ("areas", VArr [])]).
Proof.
  apply (normalizeData_fills_missing_collections [("version", VNum 2)]);
    reflexivity.
Defined.

Lemma not_in_cons_eqb k k' l :
  ~ In k (k' :: l) -> (k' =? k) = false /\ ~ In k l.
Proof.
  intros H. split.
  - apply String.eqb_neq. intros E. apply H. now left.
  - intros Hin. apply H. now right.
Qed.

(** X10. The normalizer leaves alone what it does not default.
    A property of the document other than [areaGroups], [inbox] and
    [areas], and a property of a task other than [description], [labels],
    [attachments] and [contextTags], reads the same after normalization;
    and a task property that is truthy is never replaced, defaulted or
    not. *)
Theorem normalizer_keeps_other_properties :
  (forall ps D' k,
     normalizeData (VObj ps) = Ok D' -> ~ In k data_keys ->
     get k D' = Ok (lookup k ps)) /\
  (forall ps t' k,
     normalizeTask (VObj ps) = Ok t' -> ~ In k task_keys ->
     get k t' = Ok (lookup k ps)) /\
  (forall ps t' k v,
     normalizeTask (VObj ps) = Ok t' ->
     lookup k ps = Some v -> truthy v = true ->
     get k t' = Ok (Some v)).
Proof.
  assert (Htask : forall ps t' k,
            normalizeTask (VObj ps) = Ok t' -> ~ In k task_keys ->
            get k t' = Ok (lookup k ps)).
  { intros ps t' k H Hk. unfold normalizeTask in H. open_binds H.
    injection H as <-. unfold task_keys in Hk.
    apply not_in_cons_eqb in Hk as [E1 Hk].
    apply not_in_cons_eqb in Hk as [E2 Hk].
    apply not_in_cons_eqb in Hk as [E3 Hk].
    apply not_in_cons_eqb in Hk as [E4 _].
    rewrite get_object. cbn [own_props].
    now rewrite !lookup_set_field_ne by assumption. }
  split; [|split; [exact Htask|]].
  - intros ps D' k H Hk. unfold normalizeData in H. open_binds H.
    injection H as <-. unfold data_keys in Hk.
    apply not_in_cons_eqb in Hk as [E1 Hk].
    apply not_in_cons_eqb in Hk as [E2 Hk].
    apply not_in_cons_eqb in Hk as [E3 _].
    rewrite get_object. cbn [own_props].
    now rewrite !lookup_set_field_ne by assumption.
  - intros ps t' k v H Hv Ht.
    destruct (in_dec string_dec k task_keys) as [Hin|Hout];
      [|rewrite (Htask ps t' k H Hout); now rewrite Hv].
    unfold normalizeTask in H. rewrite !get_object in H.
    cbn [bind own_props] in H. injection H as <-. rewrite get_object.
    unfold task_keys in Hin.
    destruct Hin as [<-|[<-|[<-|[<-|[]]]]]; read_props;
      rewrite Hv; simpl; now rewrite Ht.
Qed.

Lemma normalizer_keeps_other_properties_witness :
  get "title" (VObj [("title", VStr "Buy milk");
                     ("labels", VArr [VStr "home"]); ("description", VStr "");
                     ("attachments", VArr []); ("contextTags", VArr [])]) =
    Ok (lookup "title" [("title", VStr "Buy milk");
                        ("labels", VArr [VStr "home"])]) /\
  get "labels" (VObj [("title", VStr "Buy milk");
                      ("labels", VArr [VStr "home"]); ("description", VStr "");
                      ("attachments", VArr []); ("contextTags", VArr [])]) =
    Ok (Some (VArr [VStr "home"])).
Proof.
  destruct normalizer_keeps_other_properties as (_ & Hother & Hkept).
  split.
  - apply (Hother [("title", VStr "Buy milk"); ("labels", VArr [VStr "home"])]).
    + reflexivity.
    + intros [H|[H|[H|[H|[]]]]]; discriminate H.
  - apply (Hkept [("title", VStr "Buy milk"); ("labels", VArr [VStr "home"])]);
      reflexivity.
Defined.

End ShapeFacts.

(** ** More on the mutation engine *)

Section IdFacts.
Import Model Mutation Updates Traversal Samples.

Lemma update_first_map {A B} (g : A -> B) (p : A -> bool) (f : A -> A) l :
  (forall x, p x = true -> g (f x) = g x) ->
  map g (update_first p f l) = map g l.
Proof.
  intros H. induction l as [|x l IH]; simpl; [reflexivity|].
  destruct (p x) eqn:E; simpl; [now rewrite (H x E) | now rewrite IH].
Qed.

Lemma all_task_ids_containers d :
  all_task_ids d = List.concat (map (map task_id) (containers d)).
Proof. unfold all_task_ids, all_tasks. apply concat_map. Qed.

(** A pass that rewrites every container without touching an id leaves
    the list of ids as it was. *)
Lemma ids_preserved (F : list Task -> list Task) d d' :
  containers d' = map F (containers d) ->
  (forall c, map task_id (F c) = map task_id c) ->
  all_task_ids d' = all_task_ids d.
Proof.
  intros Hc HF. rewrite !all_task_ids_containers, Hc, map_map.
  f_equal. apply map_ext. exact HF.
Qed.

Lemma updateTaskStatus_ids taskId c :
  map task_id (updateTaskStatus taskId c) = map task_id c.
Proof. unfold updateTaskStatus. now apply update_first_map. Qed.

Lemma occurrences_zero_containers taskId d :
  occurrences taskId d = 0 ->
  forall c, In c (containers d) -> count_in taskId c = 0.
Proof.
  intros H c Hc. rewrite occurrences_sum in H.
  apply (list_sum_zero _ _ H). now apply in_map.
Qed.

Lemma deleteTask_traversal taskId d :
  deleteTask taskId d = map_containers (keep_other taskId) d.
Proof. reflexivity. Qed.

Lemma toggleTaskStatus_traversal taskId d :
  toggleTaskStatus taskId d = map_containers (updateTaskStatus taskId) d.
Proof. reflexivity. Qed.

Lemma updateTask_traversal u d :
  updateTask u d = map_containers (updateInList u) d.
Proof. reflexivity. Qed.

Lemma containers_map_containers F d :
  containers (map_containers F d) = map F (containers d).
Proof.
  unfold containers, map_containers. cbn [inbox areas map]. f_equal.
  rewrite flat_map_map, map_flat_map. apply flat_map_ext. intros a.
  unfold area_containers. cbn [map]. f_equal.
  cbn [area_projects set_area_projects].
  rewrite flat_map_map, map_flat_map. apply flat_map_ext. intros p.
  unfold project_containers. cbn [map]. f_equal.
  cbn [project_phases set_project_phases]. rewrite !map_map. reflexivity.
Qed.

Lemma without_tasks_map_containers F d :
  without_tasks (map_containers F d) = without_tasks d.
Proof.
  unfold without_tasks, map_containers. cbn [areaGroups areas]. f_equal.
  rewrite map_map. apply map_ext. intros a.
  unfold strip_area, set_area_projects, set_area_tasks. simpl. f_equal.
  rewrite map_map. apply map_ext. intros p.
  unfold strip_project, set_project_phases, set_project_tasks. simpl.
  f_equal. rewrite map_map. apply map_ext. intros ph. reflexivity.
Qed.

Lemma set_area_tasks_same a : set_area_tasks (area_tasks a) a = a.
Proof. now destruct a. Qed.

Lemma set_project_tasks_same p : set_project_tasks (project_tasks p) p = p.
Proof. now destruct p. Qed.

Lemma in_area_containers a p :
  In p (area_projects a) ->
  forall c, In c (project_containers p) -> In c (area_containers a).
Proof.
  intros Hp c Hc. unfold area_containers. right.
  apply in_flat_map. eauto.
Qed.

Lemma in_containers a d :
  In a (areas d) -> forall c, In c (area_containers a) -> In c (containers d).
Proof.
  intros Ha c Hc. unfold containers. right. apply in_flat_map. eauto.
Qed.

(** A pass that fixes every container of the document fixes the
    document. *)
Lemma map_containers_fixed F d :
  (forall c, In c (containers d) -> F c = c) -> map_containers F d = d.
Proof.
  intros H. unfold map_containers. destruct d as [gs ars inb].
  cbn [areaGroups areas inbox]. f_equal.
  - apply map_fixed. intros a Ha.
    assert (Hca : forall c, In c (area_containers a) -> F c = c)
      by (intros c Hc; apply H; right; apply in_flat_map; eauto).
    rewrite (Hca (area_tasks a)) by now left.
    rewrite set_area_tasks_same.
    transitivity (set_area_projects (area_projects a) a);
      [f_equal | apply set_area_projects_same].
    apply map_fixed. intros p Hp.
    assert (Hcp : forall c, In c (project_containers p) -> F c = c)
      by (intros c Hc; apply Hca; now apply (in_area_containers a p)).
    rewrite (Hcp (project_tasks p)) by now left.
    rewrite set_project_tasks_same.
    transitivity (set_project_phases (project_phases p) p);
      [f_equal | apply set_project_phases_same].
    apply map_fixed. intros ph Hph.
    rewrite (Hcp (phase_tasks ph)) by (right; now apply in_map).
    apply set_phase_tasks_same.
  - apply H. now left.
Qed.

Lemma map_containers_compose F G d :
  map_containers F (map_containers G d) =
  map_containers (fun c => F (G c)) d.
Proof.
  unfold map_containers. cbn [areaGroups areas inbox]. f_equal.
  rewrite map_map. apply map_ext. intros a.
  unfold set_area_projects, set_area_tasks. simpl. f_equal.
  rewrite map_map. apply map_ext. intros p.
  unfold set_project_phases, set_project_tasks. simpl. f_equal.
  rewrite map_map. apply map_ext. intros ph. reflexivity.
Qed.

Lemma map_containers_ext F G d :
  (forall c, F c = G c) -> map_containers F d = map_containers G d.
Proof.
  intros H. unfold map_containers. rewrite (H (inbox d)). f_equal.
  apply map_ext. intros a. rewrite (H (area_tasks a)). f_equal.
  apply map_ext. intros p. rewrite (H (project_tasks p)). f_equal.
  apply map_ext. intros ph. now rewrite (H (phase_tasks ph)).
Qed.

End IdFacts.

Section TaskPassFacts.
Import Model Mutation Updates Traversal Samples.

Lemma update_first_absent_count taskId f c :
  count_in taskId c = 0 -> update_first (is_task taskId) f c = c.
Proof. intros H. apply update_first_none. now apply count_in_zero. Qed.

Lemma find_update_first {A} (p : A -> bool) (f : A -> A) l :
  (forall x, p x = true -> p (f x) = true) ->
  find p (update_first p f l) = option_map f (find p l).
Proof.
  intros H. induction l as [|x l IH]; simpl; [reflexivity|].
  destruct (p x) eqn:E; simpl.
  - now rewrite (H x E).
  - now rewrite E, IH.
Qed.

Lemma Forall2_same {A} (R : A -> A -> Prop) l :
  (forall x, R x x) -> Forall2 R l l.
Proof. intros H. induction l; constructor; auto. Qed.

Lemma Forall2_map_self {A} (R : A -> A -> Prop) (f : A -> A) l :
  (forall x, R x (f x)) -> Forall2 R l (map f l).
Proof. intros H. induction l; simpl; constructor; auto. Qed.

(** What [updateTaskStatus] does to each task of a list: nothing, or, to
    a task with the id, a change of status to the toggled one. *)
Lemma updateTaskStatus_pointwise taskId c :
  Forall2 (fun t t' =>
             t' = t \/
             (task_id t = taskId /\
              t' = set_task_status (toggle (task_status t)) t))
    c (updateTaskStatus taskId c).
Proof.
  unfold updateTaskStatus. induction c as [|x c IH]; simpl; [constructor|].
  destruct (is_task taskId x) eqn:E.
  - constructor.
    + right. split; [|reflexivity]. unfold is_task in E.
      now apply String.eqb_eq.
    + apply Forall2_same. now left.
  - constructor; [now left | exact IH].
Qed.

(** X11. Toggling a status touches nothing else.  After
    [toggleTaskStatus] every container holds, place by place, the task it
    held before, either unchanged or, for a task with the toggled id,
    with its status toggled and every other field as it was; so the task
    ids of the document are the same, in the same places; the document
    stripped of its tasks is the same; the one-location invariant is
    kept; and an id that is in no container leaves the document
    unchanged. *)
Theorem toggleTaskStatus_keeps_ids (taskId : string) (d : LifeOSData) :
  let d' := toggleTaskStatus taskId d in
  Forall2
    (Forall2 (fun t t' =>
                t' = t \/
                (task_id t = taskId /\
                 t' = set_task_status (toggle (task_status t)) t)))
    (containers d) (containers d') /\
  all_task_ids d' = all_task_ids d /\
  without_tasks d' = without_tasks d /\
  (one_location d -> one_location d') /\
  (occurrences taskId d = 0 -> d' = d).
Proof.
  assert (Hids : all_task_ids (toggleTaskStatus taskId d) = all_task_ids d).
  { apply (ids_preserved (updateTaskStatus taskId)).
    - apply containers_toggleTaskStatus.
    - apply updateTaskStatus_ids. }
  cbv zeta. split; [|repeat split].
  - rewrite containers_toggleTaskStatus. apply Forall2_map_self.
    intros c. apply updateTaskStatus_pointwise.
  - exact Hids.
  - rewrite toggleTaskStatus_traversal. apply without_tasks_map_containers.
  - unfold one_location. now rewrite Hids.
  - intros H0. rewrite toggleTaskStatus_traversal.
    apply map_containers_fixed. intros c Hc. unfold updateTaskStatus.
    apply update_first_absent_count.
    now apply (occurrences_zero_containers taskId d).
Qed.

Lemma toggleTaskStatus_keeps_ids_witness :
  one_location (toggleTaskStatus "t3" doc1) /\
  toggleTaskStatus "t404" doc1 = doc1.
Proof.
  destruct (toggleTaskStatus_keeps_ids "t3" doc1) as (_ & _ & _ & Hone & _).
  destruct (toggleTaskStatus_keeps_ids "t404" doc1)
    as (_ & _ & _ & _ & Habs).
  split.
  - apply Hone. unfold one_location. vm_compute.
    repeat constructor; simpl; intuition discriminate.
  - apply Habs. reflexivity.
Defined.

(** X12. A toggled task is never in the backlog.  In every
    container of the result of [toggleTaskStatus], the first task with the
    toggled id (the one the pass rewrote) has status Done or In Progress. *)
Theorem toggled_task_is_not_backlog (taskId : string) (d : LifeOSData)
  (c : list Task) (t : Task) :
  In c (containers (toggleTaskStatus taskId d)) ->
  find (is_task taskId) c = Some t ->
  task_status t <> Backlog.
Proof.
  intros Hc Hf. rewrite containers_toggleTaskStatus in Hc.
  apply in_map_iff in Hc as (c0 & <- & _).
  unfold updateTaskStatus in Hf. rewrite find_update_first in Hf by auto.
  destruct (find (is_task taskId) c0) as [t0|]; [|discriminate].
  injection Hf as <-. simpl. now destruct (task_status t0).
Qed.

Lemma toggled_task_is_not_backlog_witness :
  task_status (set_task_status Done (task "t1")) <> Backlog.
Proof.
  apply (toggled_task_is_not_backlog "t1" doc1
           [set_task_status Done (task "t1")]).
  - now left.
  - reflexivity.
Defined.

Lemma keep_other_comm a b c :
  keep_other a (keep_other b c) = keep_other b (keep_other a c).
Proof.
  unfold keep_other. induction c as [|t c IH]; simpl; [reflexivity|].
  destruct (task_id t =? b) eqn:Eb, (task_id t =? a) eqn:Ea; simpl;
    rewrite ?Ea, ?Eb; simpl; now rewrite ?IH.
Qed.

Lemma keep_other_idem a c : keep_other a (keep_other a c) = keep_other a c.
Proof.
  unfold keep_other. induction c as [|t c IH]; simpl; [reflexivity|].
  destruct (task_id t =? a) eqn:Ea; simpl; rewrite ?Ea; simpl;
    now rewrite ?IH.
Qed.

Lemma keep_other_absent a c : count_in a c = 0 -> keep_other a c = c.
Proof.
  intros H. apply filter_fixed. intros t Ht.
  pose proof (count_in_zero a c H t Ht) as E. unfold is_task in E.
  now rewrite E.
Qed.

(** X13. Deleting a task twice is deleting it once, two
    deletions give the same document in either order, and deleting an id
    that is in no container changes nothing. *)
Theorem deleteTask_idempotent_commutes (a b : string) (d : LifeOSData) :
  deleteTask a (deleteTask a d) = deleteTask a d /\
  deleteTask a (deleteTask b d) = deleteTask b (deleteTask a d) /\
  (occurrences a d = 0 -> deleteTask a d = d).
Proof.
  rewrite !deleteTask_traversal, !map_containers_compose. repeat split.
  - apply map_containers_ext. apply keep_other_idem.
  - apply map_containers_ext. intros c. apply keep_other_comm.
  - intros H0. apply map_containers_fixed. intros c Hc.
    apply keep_other_absent. now apply (occurrences_zero_containers a d).
Qed.

Lemma deleteTask_idempotent_commutes_witness :
  deleteTask "t404" doc1 = doc1.
Proof.
  apply (deleteTask_idempotent_commutes "t404" "t1" doc1). reflexivity.
Defined.

Lemma count_keep_other_ne other taskId c :
  other <> taskId -> count_in other (keep_other taskId c) = count_in other c.
Proof.
  intros Hne. unfold count_in, keep_other.
  induction c as [|t c IH]; simpl; [reflexivity|].
  destruct (task_id t =? taskId) eqn:E; simpl.
  - apply String.eqb_eq in E.
    destruct (string_dec (task_id t) other) as [E'|_]; [congruence|].
    exact IH.
  - destruct (string_dec (task_id t) other); now rewrite IH.
Qed.

(** X14. [deleteTask] keeps the one-location invariant and
    every other task: each id other than the deleted one occurs as often
    as before. *)
Theorem deleteTask_keeps_one_location (taskId : string) (d : LifeOSData) :
  (one_location d -> one_location (deleteTask taskId d)) /\
  (forall other, other <> taskId ->
     occurrences other (deleteTask taskId d) = occurrences other d).
Proof.
  split.
  - intros Hone. unfold one_location, all_task_ids.
    rewrite all_tasks_deleteTask. now apply NoDup_map_filter.
  - intros other Hne. rewrite !occurrences_sum, containers_deleteTask, map_map.
    f_equal. apply map_ext. intros c. now apply count_keep_other_ne.
Qed.

Lemma deleteTask_keeps_one_location_witness :
  one_location (deleteTask "t2" doc1) /\
  occurrences "t3" (deleteTask "t2" doc1) = occurrences "t3" doc1.
Proof.
  destruct (deleteTask_keeps_one_location "t2" doc1) as (Hone & Hother).
  split.
  - apply Hone. unfold one_location. vm_compute.
    repeat constructor; simpl; intuition discriminate.
  - apply Hother. discriminate.
Defined.

Lemma updateInList_ids u c : map task_id (updateInList u c) = map task_id c.
Proof.
  unfold updateInList, replace_first. apply update_first_map.
  intros x Hx. unfold is_task in Hx. apply String.eqb_eq in Hx. now symmetry.
Qed.

(** X15. Saving an edited task replaces it in place.  After
    [updateTask] the ids and their places are the same and the rest of
    the document is unchanged; each container is rewritten by replacing
    the first task that has the id by the edited one, the others staying
    where they are; an id that is in no container leaves the document
    unchanged. *)
Theorem updateTask_replaces_in_place (u : Task) (d : LifeOSData) :
  let d' := updateTask u d in
  all_task_ids d' = all_task_ids d /\
  without_tasks d' = without_tasks d /\
  containers d' = map (updateInList u) (containers d) /\
  (forall pre t post,
     task_id t = task_id u ->
     (forall x, In x pre -> task_id x <> task_id u) ->
     updateInList u (pre ++ t :: post) = pre ++ u :: post) /\
  (occurrences (task_id u) d = 0 -> d' = d).
Proof.
  assert (Hc : containers (updateTask u d) =
               map (updateInList u) (containers d))
    by (rewrite updateTask_traversal; apply containers_map_containers).
  cbv zeta. repeat split.
  - apply (ids_preserved (updateInList u)); [exact Hc|].
    apply updateInList_ids.
  - rewrite updateTask_traversal. apply without_tasks_map_containers.
  - exact Hc.
  - intros pre t post Ht Hpre. unfold updateInList, replace_first.
    apply (update_first_split (is_task (task_id u)) (fun _ => u)).
    + unfold is_task. now apply String.eqb_eq.
    + intros y Hy. unfold is_task. apply String.eqb_neq. now apply Hpre.
  - intros H0. rewrite updateTask_traversal.
    apply map_containers_fixed. intros c Hc0.
    unfold updateInList, replace_first. apply update_first_absent_count.
    now apply (occurrences_zero_containers (task_id u) d).
Qed.

Lemma updateTask_replaces_in_place_witness :
  updateInList (set_task_status Done (task "t2")) [task "t1"; task "t2"] =
    [task "t1"; set_task_status Done (task "t2")] /\
  updateTask (task "t404") doc1 = doc1.
Proof.
  destruct (updateTask_replaces_in_place (set_task_status Done (task "t2"))
              doc1) as (_ & _ & _ & Hplace & _).
  destruct (updateTask_replaces_in_place (task "t404") doc1)
    as (_ & _ & _ & _ & Habs).
  split.
  - apply (Hplace [task "t1"] (task "t2") []); [reflexivity|].
    intros x [<-|[]]. discriminate.
  - apply Habs. reflexivity.
Defined.

End TaskPassFacts.

Section InsertFacts.
Import Model Mutation Updates Traversal Targets Samples.

Lemma first_match_split {A} (p : A -> bool) l :
  (exists x, In x l /\ p x = true) ->
  exists pre x post, l = pre ++ x :: post /\ p x = true /\
    forall y, In y pre -> p y = false.
Proof.
  induction l as [|y l IH]; intros (x & Hx & Hp); [destruct Hx|].
  destruct (p y) eqn:E.
  - exists [], y, l. repeat split; auto. intros z [].
  - destruct Hx as [->|Hx]; [congruence|].
    destruct (IH (ex_intro _ x (conj Hx Hp))) as (pre & x0 & post & -> & H0 & Hpre).
    exists (y :: pre), x0, post. repeat split; auto.
    intros z [<-|Hz]; auto.
Qed.

Lemma flat_map_area_ids l :
  map task_id (List.concat (flat_map area_containers l)) =
  flat_map area_ids l.
Proof.
  induction l as [|a l IH]; [reflexivity|].
  cbn [flat_map]. rewrite concat_app, map_app, IH. reflexivity.
Qed.

Lemma all_task_ids_areas d :
  all_task_ids d = map task_id (inbox d) ++ flat_map area_ids (areas d).
Proof.
  unfold all_task_ids, all_tasks, containers. cbn [List.concat].
  now rewrite map_app, flat_map_area_ids.
Qed.

(** Where [insert_task] puts the task when the target takes one
    insertion. *)
Lemma insert_task_ids t targetType targetId d :
  single_target targetType targetId d ->
  exists l1 l2,
    all_task_ids d = l1 ++ l2 /\
    all_task_ids (insert_task t targetType targetId d) =
    l1 ++ task_id t :: l2.
Proof.
  unfold single_target, insert_task.
  destruct targetType, (given targetId) as [i|]; try tauto; intros H.
  - exists [], (all_task_ids d). split; [reflexivity|].
    rewrite !all_task_ids_areas. reflexivity.
  - exists [], (all_task_ids d). split; [reflexivity|].
    rewrite !all_task_ids_areas. reflexivity.
  - destruct (first_match_split (is_area i) (areas d))
      as (pre & a & post & Hsplit & Ha & Hpre).
    { destruct H as (a & Hin & Hid). exists a. split; [exact Hin|].
      unfold is_area. now apply String.eqb_eq. }
    exists (map task_id (inbox d) ++ flat_map area_ids pre),
           (area_ids a ++ flat_map area_ids post).
    rewrite !all_task_ids_areas. cbn [areas inbox set_areas].
    rewrite Hsplit, (update_first_split (is_area i) _ pre a post Ha Hpre).
    rewrite !flat_map_app. cbn [flat_map].
    rewrite <- !app_assoc. split; reflexivity.
Qed.

Lemma NoDup_insert {A} (x : A) l1 l2 :
  NoDup (l1 ++ l2) -> ~ In x (l1 ++ l2) -> NoDup (l1 ++ x :: l2).
Proof.
  intros Hnd Hx. apply (NoDup_Add (Add_app x l1 l2)). auto.
Qed.

Lemma count_insert (x y : string) l1 l2 :
  count_occ string_dec (l1 ++ x :: l2) y =
  (if string_dec x y then 1 else 0) + count_occ string_dec (l1 ++ l2) y.
Proof.
  rewrite !count_occ_app. simpl. destruct (string_dec x y); lia.
Qed.

(** X16. A task created with a fresh id keeps the one-location
    invariant.  When the target is the inbox or an area that exists, and
    the new id is not in the document, after [handleAddTask] the invariant
    holds, the new id occurs once and every other id occurs as often as
    before. *)
Theorem handleAddTask_fresh_id (title : string) (targetType : TargetType)
  (targetId : option string) (newId now : string) (d : LifeOSData) :
  single_target targetType targetId d ->
  one_location d ->
  ~ In newId (all_task_ids d) ->
  let d' := handleAddTask title targetType targetId newId now d in
  one_location d' /\
  occurrences newId d' = 1 /\
  (forall other, other <> newId -> occurrences other d' = occurrences other d).
Proof.
  intros Hst Hone Hfresh d'. subst d'. unfold handleAddTask.
  destruct (insert_task_ids (newTask title newId now) _ _ d Hst)
    as (l1 & l2 & H1 & H2).
  cbn [task_id newTask] in H2.
  unfold one_location, occurrences in *. rewrite H2. rewrite H1 in *.
  repeat split.
  - now apply NoDup_insert.
  - rewrite count_insert.
    destruct (string_dec newId newId) as [_|C]; [|contradiction].
    apply (count_occ_not_In string_dec) in Hfresh. now rewrite Hfresh.
  - intros other Hne. rewrite count_insert.
    destruct (string_dec newId other) as [E|_]; [congruence | reflexivity].
Qed.

Lemma handleAddTask_fresh_id_witness :
  one_location (handleAddTask "Run" TArea (Some "a1") "t9" "now" doc1) /\
  occurrences "t9" (handleAddTask "Run" TInbox None "t9" "now" doc1) = 1.
Proof.
  split.
  - apply (handleAddTask_fresh_id "Run" TArea (Some "a1") "t9" "now" doc1).
    + exists area1. split; [now left | reflexivity].
    + unfold one_location. vm_compute.
      repeat constructor; simpl; intuition discriminate.
    + vm_compute. intuition discriminate.
  - refine (proj1 (proj2
      (handleAddTask_fresh_id "Run" TInbox None "t9" "now" doc1 I _ _))).
    + unfold one_location. vm_compute.
      repeat constructor; simpl; intuition discriminate.
    + vm_compute. intuition discriminate.
Defined.

Lemma single_target_removeEverywhere taskId targetType targetId d :
  single_target targetType targetId d ->
  single_target targetType targetId (fst (removeEverywhere taskId d)).
Proof.
  rewrite removeEverywhere_fst. unfold single_target. cbn [areas].
  destruct targetType, (given targetId) as [i|]; try tauto.
  intros (a & Ha & Hid). exists (removeFromArea_tasks taskId a).
  split; [now apply in_map | exact Hid].
Qed.

(** X17. Moving a task into the inbox or into an area that
    exists keeps the one-location invariant: a task of the document
    occurs exactly once afterwards and every other id occurs as often as
    before. *)
Theorem moveTask_single_target (taskId : string) (targetType : TargetType)
  (targetId : option string) (d : LifeOSData) :
  single_target targetType targetId d ->
  one_location d ->
  0 < occurrences taskId d ->
  let d' := moveTask taskId targetType targetId d in
  one_location d' /\
  occurrences taskId d' = 1 /\
  (forall other, other <> taskId -> occurrences other d' = occurrences other d).
Proof.
  intros Hst Hone Hpos d'. subst d'. unfold moveTask.
  pose proof (removeEverywhere_found taskId d) as Hfound.
  pose proof (removeEverywhere_id taskId d) as Hid.
  pose proof (removed_absent taskId d Hone) as Habs.
  pose proof (removed_one_location taskId d Hone) as Hone'.
  pose proof (single_target_removeEverywhere taskId _ _ d Hst) as Hst'.
  pose proof (removeEverywhere_deleteTask taskId d Hone) as Hdel.
  destruct (removeEverywhere taskId d) as [newData [t|]]; simpl in *;
    [|specialize (Hfound eq_refl); lia].
  specialize (Hid t eq_refl).
  destruct (insert_task_ids t _ _ newData Hst') as (l1 & l2 & H1 & H2).
  rewrite Hid in H2.
  assert (Hother : forall other, other <> taskId ->
            occurrences other newData = occurrences other d).
  { intros other Hne. rewrite !occurrences_sum, Hdel, containers_deleteTask.
    rewrite map_map. f_equal. apply map_ext. intros c.
    now apply count_keep_other_ne. }
  unfold one_location in *. unfold occurrences at 1 2. rewrite H2.
  repeat split.
  - apply NoDup_insert; now rewrite <- H1.
  - rewrite count_insert.
    destruct (string_dec taskId taskId) as [_|C]; [|contradiction].
    rewrite <- H1. apply (count_occ_not_In string_dec) in Habs.
    now rewrite Habs.
  - intros other Hne. rewrite count_insert.
    destruct (string_dec taskId other) as [E|_]; [congruence|].
    rewrite <- H1. now apply Hother.
Qed.

Lemma moveTask_single_target_witness :
  one_location (moveTask "t4" TArea (Some "a1") doc1) /\
  occurrences "t4" (moveTask "t4" TInbox None doc1) = 1.
Proof.
  split.
  - apply (moveTask_single_target "t4" TArea (Some "a1") doc1).
    + exists area1. split; [now left | reflexivity].
    + unfold one_location. vm_compute.
      repeat constructor; simpl; intuition discriminate.
    + vm_compute. lia.
  - refine (proj1 (proj2
      (moveTask_single_target "t4" TInbox None doc1 I _ _))).
    + unfold one_location. vm_compute.
      repeat constructor; simpl; intuition discriminate.
    + vm_compute. lia.
Defined.

End InsertFacts.

Section MoveEdgeFacts.
Import Model Mutation Updates Traversal Targets Samples.

Lemma forEach_with_unchanged {A S} (f : A -> S -> A * S) l :
  (forall x, In x l -> forall s, snd (f x s) = s) ->
  forall s, snd (forEach_with f l s) = s.
Proof.
  induction l as [|x l IH]; intros H s; [reflexivity|]. simpl.
  pose proof (H x (or_introl eq_refl) s) as Hx.
  destruct (f x s) as [x' s1]. simpl in Hx. subst s1.
  pose proof (IH (fun y Hy => H y (or_intror Hy)) s) as Hl.
  now destruct (forEach_with f l s).
Qed.

Lemma removeFromList_absent taskId tasks m :
  count_in taskId tasks = 0 -> snd (removeFromList taskId tasks m) = m.
Proof.
  intros H. unfold removeFromList.
  destruct (find (is_task taskId) tasks) as [t|] eqn:E; [|reflexivity].
  apply find_some in E as [Hin Hp].
  pose proof (count_in_zero taskId tasks H t Hin). congruence.
Qed.

Lemma removeEverywhere_absent taskId d :
  occurrences taskId d = 0 -> snd (removeEverywhere taskId d) = None.
Proof.
  intros H0.
  pose proof (occurrences_zero_containers taskId d H0) as Hc.
  assert (Hphase : forall a p ph, In a (areas d) -> In p (area_projects a) ->
            In ph (project_phases p) ->
            forall m, snd (removeFromPhase taskId ph m) = m).
  { intros a p ph Ha Hp Hph m. unfold removeFromPhase.
    pose proof (removeFromList_absent taskId (phase_tasks ph) m) as H.
    destruct (removeFromList taskId (phase_tasks ph) m). simpl in *.
    apply H, Hc, (in_containers a d Ha), (in_area_containers a p Hp).
    right. now apply in_map. }
  assert (Hproject : forall a p, In a (areas d) -> In p (area_projects a) ->
            forall m, snd (removeFromProject taskId p m) = m).
  { intros a p Ha Hp m. unfold removeFromProject.
    pose proof (removeFromList_absent taskId (project_tasks p) m) as H.
    destruct (removeFromList taskId (project_tasks p) m) as [ts m1].
    simpl in H.
    pose proof (forEach_with_unchanged (removeFromPhase taskId)
                  (project_phases p)
                  (fun ph Hph => Hphase a p ph Ha Hp Hph) m1) as H1.
    destruct (forEach_with _ (project_phases p) m1). simpl in *.
    rewrite H1. apply H, Hc, (in_containers a d Ha),
      (in_area_containers a p Hp). now left. }
  assert (Harea : forall a, In a (areas d) ->
            forall m, snd (removeFromArea taskId a m) = m).
  { intros a Ha m. unfold removeFromArea.
    pose proof (removeFromList_absent taskId (area_tasks a) m) as H.
    destruct (removeFromList taskId (area_tasks a) m) as [ts m1].
    simpl in H.
    pose proof (forEach_with_unchanged (removeFromProject taskId)
                  (area_projects a)
                  (fun p Hp => Hproject a p Ha Hp) m1) as H1.
    destruct (forEach_with _ (area_projects a) m1). simpl in *.
    rewrite H1. apply H, Hc, (in_containers a d Ha). now left. }
  unfold removeEverywhere.
  pose proof (removeFromList_absent taskId (inbox d) None) as H.
  destruct (removeFromList taskId (inbox d) None) as [ts m0]. simpl in H.
  pose proof (forEach_with_unchanged (removeFromArea taskId) (areas d)
                Harea m0) as H1.
  destruct (forEach_with _ (areas d) m0). simpl in *.
  rewrite H1. apply H, Hc. now left.
Qed.

(** X18. Moving a task whose id is in no container leaves the
    document unchanged, whatever the target ([updateData] is not
    called). *)
Theorem moveTask_absent_is_noop (taskId : string) (targetType : TargetType)
  (targetId : option string) (d : LifeOSData) :
  occurrences taskId d = 0 ->
  moveTask taskId targetType targetId d = d.
Proof.
  intros H0. unfold moveTask.
  pose proof (removeEverywhere_absent taskId d H0) as Hs.
  destruct (removeEverywhere taskId d) as [newData m]. simpl in Hs.
  now rewrite Hs.
Qed.

Lemma moveTask_absent_is_noop_witness :
  moveTask "t404" TArea (Some "a1") doc1 = doc1.
Proof.
  apply (moveTask_absent_is_noop "t404" TArea (Some "a1") doc1).
  reflexivity.
Defined.

Lemma moveTask_unmatched_loses_task_witness :
  occurrences "t3" (moveTask "t3" TPhase (Some "ph404") doc1) = 0 /\
  occurrences "t3" (moveTask "t3" TProject None doc1) = 0.
Proof.
  split.
  - apply (moveTask_unmatched_loses_task "t3" TPhase (Some "ph404") doc1).
    + unfold one_location. vm_compute.
      repeat constructor; simpl; intuition discriminate.
    + vm_compute. lia.
    + intros a p ph [<-|[]] [<-|[]] [<-|[]]. discriminate.
  - apply (moveTask_unmatched_loses_task "t3" TProject None doc1).
    + unfold one_location. vm_compute.
      repeat constructor; simpl; intuition discriminate.
    + vm_compute. lia.
    + exact I.
Defined.

(** X20. Creating into a target that is not there changes
    nothing.  [handleAddTask] with an area, project or phase target that
    is undefined, empty or matches nothing, [handleAddProject] with an
    area id no area has, and [handleAddPhase] with a project id no project
    has, all leave the document as it was. *)
Theorem creation_without_target_is_noop (d : LifeOSData) :
  (forall title targetType targetId newId now,
     unmatched targetType targetId d ->
     handleAddTask title targetType targetId newId now d = d) /\
  (forall title areaId newId startDate endDate,
     (forall a, In a (areas d) -> area_id a <> areaId) ->
     handleAddProject title areaId newId startDate endDate d = d) /\
  (forall title projectId newId,
     (forall a p, In a (areas d) -> In p (area_projects a) ->
        project_id p <> projectId) ->
     handleAddPhase title projectId newId d = d).
Proof.
  repeat split.
  - intros title targetType targetId newId now H.
    now apply insert_task_unmatched.
  - intros title areaId newId startDate endDate H. unfold handleAddProject.
    rewrite update_first_none; [apply set_areas_same|].
    intros a Ha. apply String.eqb_neq. now apply H.
  - intros title projectId newId H. unfold handleAddPhase.
    rewrite map_fixed; [apply set_areas_same|]. intros a Ha.
    rewrite update_first_none; [apply set_area_projects_same|].
    intros p Hp. apply String.eqb_neq. now apply (H a p).
Qed.

Lemma creation_without_target_is_noop_witness :
  handleAddTask "Run" TArea None "t9" "now" doc1 = doc1 /\
  handleAddProject "Read" "a404" "p9" "s" "e" doc1 = doc1 /\
  handleAddPhase "Do" "p404" "ph9" doc1 = doc1.
Proof.
  destruct (creation_without_target_is_noop doc1) as (Htask & Hproj & Hphase).
  split; [|split].
  - apply Htask. exact I.
  - apply Hproj. intros a [<-|[]]. discriminate.
  - apply Hphase. intros a p [<-|[]] [<-|[]]. discriminate.
Defined.

Lemma moveProject_removal_fst projectId l m :
  fst (forEach_with
         (fun area (found : option Project) =>
            match find (is_project projectId) (area_projects area) with
            | Some p =>
                (set_area_projects
                   (remove_first (is_project projectId) (area_projects area))
                   area, Some p)
            | None => (area, found)
            end) l m) = map (takeProject projectId) l.
Proof.
  apply forEach_with_fst. intros a s. unfold takeProject.
  now destruct (find (is_project projectId) (area_projects a)).
Qed.

(** X21. [moveProject] changes nothing unless both ends are
    found: when no area has the target id, or no project has the project
    id, the document is unchanged (the project is not dropped). *)
Theorem moveProject_without_target_is_noop (projectId targetAreaId : string)
  (d : LifeOSData) :
  ((forall a, In a (areas d) -> area_id a <> targetAreaId) ->
   moveProject projectId targetAreaId d = d) /\
  ((forall a p, In a (areas d) -> In p (area_projects a) ->
      project_id p <> projectId) ->
   moveProject projectId targetAreaId d = d).
Proof.
  split; intros H; unfold moveProject.
  - pose proof (moveProject_removal_fst projectId (areas d) None) as Hf.
    destruct (forEach_with _ (areas d) None) as [areas' [p|]];
      [|reflexivity].
    simpl in Hf. subst areas'.
    destruct (find (is_area targetAreaId) _) as [a'|] eqn:E; [|reflexivity].
    exfalso. apply find_some in E as [Hin Hp].
    apply in_map_iff in Hin as (a & <- & Ha).
    unfold is_area in Hp. apply String.eqb_eq in Hp.
    apply (H a Ha). rewrite <- Hp. unfold takeProject.
    now destruct (find (is_project projectId) (area_projects a)).
  - assert (Hs : snd (forEach_with
              (fun area (found : option Project) =>
                 match find (is_project projectId) (area_projects area) with
                 | Some p =>
                     (set_area_projects
                        (remove_first (is_project projectId)
                           (area_projects area)) area, Some p)
                 | None => (area, found)
                 end) (areas d) None) = None).
    { apply forEach_with_unchanged. intros a Ha s.
      destruct (find (is_project projectId) (area_projects a)) as [p|] eqn:E;
        [|reflexivity].
      exfalso. apply find_some in E as [Hin Hp].
      unfold is_project in Hp. apply String.eqb_eq in Hp.
      now apply (H a p Ha Hin). }
    destruct (forEach_with _ (areas d) None) as [areas' m]. simpl in Hs.
    now rewrite Hs.
Qed.

Lemma moveProject_without_target_is_noop_witness :
  moveProject "p1" "a404" doc1 = doc1 /\
  moveProject "p404" "a1" doc1 = doc1.
Proof.
  split.
  - apply (proj1 (moveProject_without_target_is_noop "p1" "a404" doc1)).
    intros a [<-|[]]. discriminate.
  - apply (proj2 (moveProject_without_target_is_noop "p404" "a1" doc1)).
    intros a p [<-|[]] [<-|[]]. discriminate.
Defined.

End MoveEdgeFacts.

Section DeleteEntityFacts.
Import Model Mutation Updates Traversal Targets Samples.

(** X22. Deleting a group ungroups its areas and deletes none.
    After [deleteGroup] the groups are those with another id, in the
    order they had; the areas are, place by place, the ones before: an
    area of the deleted group with its [groupId] undefined and every
    other field as it was, any other area unchanged; so none of them
    refers to the deleted group, and no task or project has moved. *)
Theorem deleteGroup_ungroups_areas (id : string) (d : LifeOSData) :
  let d' := deleteGroup id d in
  (forall g, In g (areaGroups d') <->
             In g (areaGroups d) /\ group_id g <> id) /\
  areaGroups d' = filter (fun g => negb (group_id g =? id)) (areaGroups d) /\
  Forall2 (fun a a' =>
             (area_groupId a = Some id /\ a' = set_area_groupId None a) \/
             (area_groupId a <> Some id /\ a' = a))
    (areas d) (areas d') /\
  map area_id (areas d') = map area_id (areas d) /\
  (forall a', In a' (areas d') -> area_groupId a' <> Some id) /\
  (forall a, In a (areas d) -> area_groupId a <> Some id ->
             In a (areas d')) /\
  containers d' = containers d /\
  all_projects d' = all_projects d.
Proof.
  set (ungroup := fun a : Area =>
         match area_groupId a with
         | Some g => if g =? id then set_area_groupId None a else a
         | None => a
         end).
  assert (Hsame : forall a, area_id (ungroup a) = area_id a /\
                    area_tasks (ungroup a) = area_tasks a /\
                    area_projects (ungroup a) = area_projects a).
  { intros a. unfold ungroup. destruct (area_groupId a) as [g|]; auto.
    destruct (g =? id); auto. }
  assert (Hpoint : forall a,
            (area_groupId a = Some id /\
             ungroup a = set_area_groupId None a) \/
            (area_groupId a <> Some id /\ ungroup a = a)).
  { intros a. unfold ungroup. destruct (area_groupId a) as [g|].
    - destruct (g =? id) eqn:Eg.
      + apply String.eqb_eq in Eg. subst g. left. now split.
      + apply String.eqb_neq in Eg. right. split; [congruence | reflexivity].
    - right. split; [discriminate | reflexivity]. }
  cbv zeta. unfold deleteGroup. cbn [areaGroups areas inbox].
  fold ungroup. split; [|split; [reflexivity|split]].
  - intros g. split.
    + intros H. apply filter_In in H as [H1 H2].
      apply negb_true_iff in H2. split; [exact H1|].
      now apply String.eqb_neq.
    + intros [H1 H2]. apply filter_In. split; [exact H1|].
      apply negb_true_iff. now apply String.eqb_neq.
  - apply Forall2_map_self. exact Hpoint.
  - repeat split.
    + rewrite map_map. apply map_ext. intros a. apply Hsame.
    + intros a' Ha'. apply in_map_iff in Ha' as (a & <- & _).
      destruct (Hpoint a) as [[_ ->] | [Hne ->]];
        [discriminate | exact Hne].
    + intros a Ha Hg. apply in_map_iff. exists a. split; [|exact Ha].
      destruct (Hpoint a) as [[He _] | [_ ->]];
        [contradiction | reflexivity].
    + unfold containers. cbn [inbox areas]. f_equal.
      rewrite flat_map_map. apply flat_map_ext. intros a.
      unfold area_containers. destruct (Hsame a) as (_ & -> & ->).
      reflexivity.
    + unfold all_projects. cbn [areas]. rewrite flat_map_map.
      apply flat_map_ext. intros a. apply Hsame.
Qed.

Lemma deleteGroup_ungroups_areas_witness :
  In area1 (areas (deleteGroup "g1" doc1)) /\
  ~ In {| group_id := "g1"; group_title := "Life" |}
       (areaGroups (deleteGroup "g1" doc1)).
Proof.
  destruct (deleteGroup_ungroups_areas "g1" doc1)
    as (Hgroups & _ & _ & _ & _ & Hkept & _).
  split.
  - apply Hkept; [now left | discriminate].
  - intros Hin. apply Hgroups in Hin as [_ Hne]. now apply Hne.
Defined.

Lemma list_sum_filter_le {A} (f : A -> nat) (p : A -> bool) l :
  list_sum (map f (filter p l)) <= list_sum (map f l).
Proof.
  induction l as [|x l IH]; simpl; [lia|].
  destruct (p x); simpl; lia.
Qed.

Lemma list_sum_map_le {A} (f g : A -> nat) l :
  (forall x, f x <= g x) -> list_sum (map f l) <= list_sum (map g l).
Proof.
  intros H. induction l as [|x l IH]; simpl; [lia|].
  specialize (H x). lia.
Qed.

Lemma fewer_occurrences_one_location d d' :
  (forall x, occurrences x d' <= occurrences x d) ->
  one_location d -> one_location d'.
Proof.
  intros Hle Hone. apply (NoDup_count_occ string_dec). intros x.
  pose proof (one_location_le x d Hone). specialize (Hle x).
  unfold occurrences in *. lia.
Qed.

Lemma occurrences_deleteArea x id d :
  occurrences x (deleteArea id d) <= occurrences x d.
Proof.
  rewrite !occurrences_split. unfold deleteArea. cbn [inbox areas set_areas].
  pose proof (list_sum_filter_le (direct_count x)
                (fun a => negb (area_id a =? id)) (areas d)).
  pose proof (list_sum_filter_le (nested_count x)
                (fun a => negb (area_id a =? id)) (areas d)).
  lia.
Qed.

Lemma occurrences_deleteProject x id d :
  occurrences x (deleteProject id d) <= occurrences x d.
Proof.
  rewrite !occurrences_split. unfold deleteProject.
  cbn [inbox areas set_areas]. rewrite !map_map.
  assert (H1 : list_sum (map (fun a => direct_count x
                 (set_area_projects
                    (filter (fun p => negb (project_id p =? id))
                       (area_projects a)) a)) (areas d)) <=
               list_sum (map (direct_count x) (areas d))).
  { apply list_sum_map_le. intros a. unfold direct_count. simpl.
    pose proof (list_sum_filter_le
                  (fun p => count_in x (project_tasks p))
                  (fun p => negb (project_id p =? id)) (area_projects a)).
    lia. }
  assert (H2 : list_sum (map (fun a => nested_count x
                 (set_area_projects
                    (filter (fun p => negb (project_id p =? id))
                       (area_projects a)) a)) (areas d)) <=
               list_sum (map (nested_count x) (areas d))).
  { apply list_sum_map_le. intros a. unfold nested_count. simpl.
    apply list_sum_filter_le. }
  lia.
Qed.

Lemma occurrences_deletePhase x id d :
  occurrences x (deletePhase id d) <= occurrences x d.
Proof.
  rewrite !occurrences_split. unfold deletePhase.
  cbn [inbox areas set_areas]. rewrite !map_map.
  assert (H1 : map (fun a => direct_count x
                 (set_area_projects
                    (map (fun project =>
                       set_project_phases
                         (filter (fun ph => negb (phase_id ph =? id))
                            (project_phases project)) project)
                       (area_projects a)) a)) (areas d) =
               map (direct_count x) (areas d)).
  { apply map_ext. intros a. unfold direct_count. simpl.
    now rewrite map_map. }
  assert (H2 : list_sum (map (fun a => nested_count x
                 (set_area_projects
                    (map (fun project =>
                       set_project_phases
                         (filter (fun ph => negb (phase_id ph =? id))
                            (project_phases project)) project)
                       (area_projects a)) a)) (areas d)) <=
               list_sum (map (nested_count x) (areas d))).
  { apply list_sum_map_le. intros a. unfold nested_count. simpl.
    rewrite map_map. apply list_sum_map_le. intros p.
    unfold phase_count. simpl. apply list_sum_filter_le. }
  rewrite H1. lia.
Qed.

(** X23. [deleteArea], [deleteProject] and [deletePhase] keep
    the one-location invariant. *)
Theorem entity_deletes_keep_one_location (id : string) (d : LifeOSData) :
  one_location d ->
  one_location (deleteArea id d) /\
  one_location (deleteProject id d) /\
  one_location (deletePhase id d).
Proof.
  intros Hone. repeat split;
    apply (fewer_occurrences_one_location d); try exact Hone; intros x.
  - apply occurrences_deleteArea.
  - apply occurrences_deleteProject.
  - apply occurrences_deletePhase.
Qed.

Lemma entity_deletes_keep_one_location_witness :
  one_location (deleteArea "a1" doc1) /\
  one_location (deleteProject "p1" doc1) /\
  one_location (deletePhase "ph1" doc1).
Proof.
  assert (H : one_location doc1).
  { unfold one_location. vm_compute.
    repeat constructor; simpl; intuition discriminate. }
  split; [|split].
  - exact (proj1 (entity_deletes_keep_one_location "a1" doc1 H)).
  - exact (proj1 (proj2 (entity_deletes_keep_one_location "p1" doc1 H))).
  - exact (proj2 (proj2 (entity_deletes_keep_one_location "ph1" doc1 H))).
Defined.

(** Every phase of the document. *)
Lemma in_all_projects d p :
  In p (all_projects d) <-> exists a, In a (areas d) /\ In p (area_projects a).
Proof. unfold all_projects. apply in_flat_map. Qed.

(** X24. A deleted area, project or phase is gone and nothing
    beside it.  After [deleteArea] the areas are exactly those with
    another id; after [deleteProject] the projects are exactly those with
    another id; after [deletePhase] no phase has the id; the inbox is
    untouched by all three, the direct tasks of areas by [deleteProject]
    and the direct tasks of projects by [deletePhase]. *)
Theorem entity_deletes_are_complete (id : string) (d : LifeOSData) :
  (forall a, In a (areas (deleteArea id d)) <->
             In a (areas d) /\ area_id a <> id) /\
  (forall p, In p (all_projects (deleteProject id d)) <->
             In p (all_projects d) /\ project_id p <> id) /\
  (forall p' ph, In p' (all_projects (deletePhase id d)) ->
                 In ph (project_phases p') -> phase_id ph <> id) /\
  inbox (deleteArea id d) = inbox d /\
  inbox (deleteProject id d) = inbox d /\
  inbox (deletePhase id d) = inbox d /\
  map area_tasks (areas (deleteProject id d)) = map area_tasks (areas d) /\
  map project_tasks (all_projects (deletePhase id d)) =
    map project_tasks (all_projects d).
Proof.
  repeat split.
  - apply filter_In in H. tauto.
  - apply filter_In in H as [_ H]. apply negb_true_iff in H.
    now apply String.eqb_neq.
  - intros [H1 H2]. apply filter_In. split; [exact H1|].
    apply negb_true_iff. now apply String.eqb_neq.
  - apply in_all_projects in H as (a' & Ha' & Hp).
    unfold deleteProject in Ha'. cbn [areas set_areas] in Ha'.
    apply in_map_iff in Ha' as (a & <- & Ha). cbn in Hp.
    apply filter_In in Hp as [Hp _]. apply in_all_projects. eauto.
  - apply in_all_projects in H as (a' & Ha' & Hp).
    unfold deleteProject in Ha'. cbn [areas set_areas] in Ha'.
    apply in_map_iff in Ha' as (a & <- & Ha). cbn in Hp.
    apply filter_In in Hp as [_ Hp]. apply negb_true_iff in Hp.
    now apply String.eqb_neq.
  - intros [Hp Hne]. apply in_all_projects in Hp as (a & Ha & Hp).
    apply in_all_projects.
    exists (set_area_projects
              (filter (fun p0 => negb (project_id p0 =? id))
                 (area_projects a)) a).
    split.
    + unfold deleteProject. cbn [areas set_areas].
      apply in_map_iff. eauto.
    + cbn. apply filter_In. split; [exact Hp|].
      apply negb_true_iff. now apply String.eqb_neq.
  - intros p' ph Hp' Hph.
    apply in_all_projects in Hp' as (a' & Ha' & Hp').
    unfold deletePhase in Ha'. cbn [areas set_areas] in Ha'.
    apply in_map_iff in Ha' as (a & <- & Ha). cbn in Hp'.
    apply in_map_iff in Hp' as (p & <- & Hp). cbn in Hph.
    apply filter_In in Hph as [_ Hph]. apply negb_true_iff in Hph.
    now apply String.eqb_neq.
  - unfold deleteProject. cbn [areas set_areas]. rewrite map_map.
    apply map_ext. reflexivity.
  - unfold all_projects, deletePhase. cbn [areas set_areas].
    rewrite flat_map_map, !map_flat_map. apply flat_map_ext. intros a.
    cbn. rewrite map_map. apply map_ext. reflexivity.
Qed.

Lemma entity_deletes_are_complete_witness :
  ~ In project1 (all_projects (deleteProject "p1" doc1)) /\
  In area1 (areas (deleteArea "a404" doc1)).
Proof.
  destruct (entity_deletes_are_complete "p1" doc1) as (_ & Hproj & _).
  destruct (entity_deletes_are_complete "a404" doc1) as (Harea & _).
  split.
  - intros Hin. apply Hproj in Hin as [_ Hne]. now apply Hne.
  - apply Harea. split; [now left | discriminate].
Defined.

End DeleteEntityFacts.

Section UploadUpdateFacts.
Import Model Mutation Updates Traversal Targets Samples.

Lemma set_task_attachments_id a t : task_id (set_task_attachments a t) = task_id t.
Proof. reflexivity. Qed.

Lemma upload_task_ids file targetId newId url now d :
  map (map task_id)
    (containers (handleFileUpload file targetId UTask newId url now d)) =
  map (map task_id) (containers d).
Proof.
  unfold handleFileUpload, containers. cbv zeta. cbn [inbox areas map].
  f_equal.
  - now apply update_first_map.
  - rewrite flat_map_map, !map_flat_map. apply flat_map_ext. intros a.
    unfold area_containers. cbn [map area_tasks set_area_projects]. f_equal.
    cbn [area_projects set_area_projects].
    rewrite flat_map_map, !map_flat_map. apply flat_map_ext. intros p.
    unfold project_containers.
    cbn [map project_tasks project_phases set_project_phases]. f_equal.
    rewrite !map_map. apply map_ext. intros ph.
    cbn [phase_tasks set_phase_tasks]. now apply update_first_map.
Qed.

Lemma upload_entity_containers file targetId type newId url now d :
  type <> UTask ->
  containers (handleFileUpload file targetId type newId url now d) =
  containers d.
Proof.
  intros Ht. destruct type; [| |contradiction];
    unfold handleFileUpload, containers; cbv zeta;
    cbn [inbox areas set_areas];
    f_equal; rewrite flat_map_map; apply flat_map_ext; intros a;
    unfold area_containers; cbn [area_tasks area_projects set_area_projects];
    f_equal.
  - induction (area_projects a) as [|p l IH]; [reflexivity|].
    cbn [update_first]. destruct (is_project targetId p); cbn [flat_map].
    + reflexivity.
    + now rewrite IH.
  - rewrite flat_map_map. apply flat_map_ext. intros p.
    unfold project_containers.
    cbn [project_tasks project_phases set_project_phases]. f_equal.
    induction (project_phases p) as [|ph l IH]; [reflexivity|].
    cbn [update_first]. destruct (is_phase targetId ph); cbn [map].
    + reflexivity.
    + now rewrite IH.
Qed.

(** X25. An upload adds one attachment and moves no task.
    After [handleFileUpload] the task ids and their places are the same;
    an upload to a project or a phase leaves every task list as it was;
    an upload to a task of the inbox appends the attachment built from
    the file to the attachments of the first task with the id (an absent
    list counting as empty) and leaves the other tasks where they are. *)
Theorem upload_appends_attachment (file : File) (targetId : string)
  (type : UploadType) (newId url now : string) (d : LifeOSData) :
  let d' := handleFileUpload file targetId type newId url now d in
  let attachment :=
    {| attachment_id := newId; attachment_name := file_name file;
       attachment_url := url; attachment_type := file_type file;
       attachment_size := file_size file; attachment_createdAt := now |} in
  all_task_ids d' = all_task_ids d /\
  (type <> UTask -> containers d' = containers d) /\
  (type = UTask ->
   forall pre t post,
     inbox d = pre ++ t :: post -> task_id t = targetId ->
     (forall x, In x pre -> task_id x <> targetId) ->
     inbox d' =
     pre ++ set_task_attachments
              (Some (match task_attachments t with
                     | Some l => l
                     | None => []
                     end ++ [attachment])) t :: post).
Proof.
  cbv zeta. repeat split.
  - rewrite !all_task_ids_containers.
    destruct type.
    + now rewrite upload_entity_containers.
    + now rewrite upload_entity_containers.
    + now rewrite upload_task_ids.
  - apply upload_entity_containers.
  - intros -> pre t post Hd Ht Hpre. unfold handleFileUpload.
    cbv zeta. cbn [inbox]. rewrite Hd.
    apply (update_first_split (is_task targetId)
             (fun task => set_task_attachments
                (push_attachment _ (task_attachments task)) task)).
    + unfold is_task. now apply String.eqb_eq.
    + intros y Hy. unfold is_task. apply String.eqb_neq. now apply Hpre.
Qed.

Lemma upload_appends_attachment_witness :
  inbox (handleFileUpload photo "t1" UTask "at1" "blob:1" "2024-01-02" doc1) =
  [set_task_attachments
     (Some [{| attachment_id := "at1"; attachment_name := "scan.png";
               attachment_url := "blob:1"; attachment_type := "image/png";
               attachment_size := 2048;
               attachment_createdAt := "2024-01-02" |}])
     (task "t1")] /\
  containers (handleFileUpload photo "p1" UProject "at1" "blob:1" "2024-01-02"
                doc1) = containers doc1.
Proof.
  destruct (upload_appends_attachment photo "t1" UTask "at1" "blob:1"
              "2024-01-02" doc1) as (_ & _ & Htask).
  destruct (upload_appends_attachment photo "p1" UProject "at1" "blob:1"
              "2024-01-02" doc1) as (_ & Hentity & _).
  split.
  - apply (Htask eq_refl [] (task "t1") []).
    + reflexivity.
    + reflexivity.
    + intros x [].
  - apply Hentity. discriminate.
Defined.

Lemma replace_first_keys {A} (key : A -> string) (u : A) l :
  map key (replace_first (fun x => key x =? key u) u l) = map key l.
Proof.
  unfold replace_first. apply update_first_map.
  intros x Hx. apply String.eqb_eq in Hx. now symmetry.
Qed.

Lemma replace_first_unknown {A} (key : A -> string) (u : A) l :
  (forall x, In x l -> key x <> key u) ->
  replace_first (fun x => key x =? key u) u l = l.
Proof.
  intros H. unfold replace_first. apply update_first_none.
  intros x Hx. apply String.eqb_neq. now apply H.
Qed.

(** X26. Saving an area, a project or a phase replaces it in
    place.  [updateArea], [updateProject] and [updatePhase] keep the ids
    of areas, projects and phases and their order; [updateArea] puts the
    edited area at the place of the first area with its id; and each of
    the three leaves the document unchanged when nothing has the id. *)
Theorem entity_updates_replace_in_place (d : LifeOSData) :
  (forall u, map area_id (areas (updateArea u d)) = map area_id (areas d)) /\
  (forall u, map project_id (all_projects (updateProject u d)) =
             map project_id (all_projects d)) /\
  (forall u, map (fun p => map phase_id (project_phases p))
               (all_projects (updatePhase u d)) =
             map (fun p => map phase_id (project_phases p))
               (all_projects d)) /\
  (forall u pre a post,
     areas d = pre ++ a :: post -> area_id a = area_id u ->
     (forall x, In x pre -> area_id x <> area_id u) ->
     areas (updateArea u d) = pre ++ u :: post) /\
  (forall u, (forall a, In a (areas d) -> area_id a <> area_id u) ->
             updateArea u d = d) /\
  (forall u, (forall p, In p (all_projects d) ->
                        project_id p <> project_id u) ->
             updateProject u d = d) /\
  (forall u, (forall p ph, In p (all_projects d) ->
                In ph (project_phases p) -> phase_id ph <> phase_id u) ->
             updatePhase u d = d).
Proof.
  repeat split.
  - intros u. unfold updateArea. cbn [areas set_areas].
    apply (replace_first_keys area_id).
  - intros u. unfold all_projects, updateProject. cbn [areas set_areas].
    rewrite flat_map_map, !map_flat_map. apply flat_map_ext. intros a.
    cbn [area_projects set_area_projects].
    apply (replace_first_keys project_id).
  - intros u. unfold all_projects, updatePhase. cbn [areas set_areas].
    rewrite flat_map_map, !map_flat_map. apply flat_map_ext. intros a.
    cbn [area_projects set_area_projects]. rewrite map_map.
    apply map_ext. intros p. cbn [project_phases set_project_phases].
    apply (replace_first_keys phase_id).
  - intros u pre a post Hd Ha Hpre. unfold updateArea, replace_first.
    cbn [areas set_areas]. rewrite Hd.
    apply (update_first_split (is_area (area_id u)) (fun _ => u)).
    + unfold is_area. now apply String.eqb_eq.
    + intros y Hy. unfold is_area. apply String.eqb_neq. now apply Hpre.
  - intros u H. unfold updateArea, is_area.
    rewrite (replace_first_unknown area_id u (areas d) H).
    apply set_areas_same.
  - intros u H. unfold updateProject, is_project.
    rewrite map_fixed; [apply set_areas_same|]. intros a Ha.
    rewrite (replace_first_unknown project_id u (area_projects a));
      [apply set_area_projects_same|].
    intros p Hp. apply H. apply in_all_projects. eauto.
  - intros u H. unfold updatePhase, is_phase.
    rewrite map_fixed; [apply set_areas_same|]. intros a Ha.
    rewrite map_fixed; [apply set_area_projects_same|]. intros p Hp.
    rewrite (replace_first_unknown phase_id u (project_phases p));
      [apply set_project_phases_same|].
    intros ph Hph. apply (H p ph); [|exact Hph].
    apply in_all_projects. eauto.
Qed.

Lemma entity_updates_replace_in_place_witness :
  areas (updateArea (set_area_tasks [] area1) doc1) =
    [set_area_tasks [] area1] /\
  updateProject (newProject "Ski" "p404" "s" "e") doc1 = doc1.
Proof.
  destruct (entity_updates_replace_in_place doc1)
    as (_ & _ & _ & Hplace & _ & Hproject & _).
  split.
  - apply (Hplace (set_area_tasks [] area1) [] area1 []).
    + reflexivity.
    + reflexivity.
    + intros x [].
  - apply Hproject. intros p [<-|[]]. discriminate.
Defined.

End UploadUpdateFacts.

Section MoveProjectFacts.
Import Model Mutation Updates Traversal Targets Samples MoreSamples.

Lemma remove_first_as_filter {A} (key : A -> string) (id : string) l :
  NoDup (map key l) ->
  remove_first (fun x => key x =? id) l =
  filter (fun x => negb (key x =? id)) l.
Proof.
  induction l as [|x l IH]; simpl; [reflexivity|].
  intros Hnd. inversion Hnd as [|? ? Hnotin Hnd']; subst.
  destruct (key x =? id) eqn:E; simpl.
  - apply String.eqb_eq in E. symmetry. apply filter_fixed.
    intros y Hy. apply negb_true_iff, String.eqb_neq. intros Ey.
    apply Hnotin. rewrite E, <- Ey. now apply in_map.
  - now rewrite IH.
Qed.

Lemma filter_flat_map {A B} (p : B -> bool) (g : A -> list B) l :
  filter p (flat_map g l) = flat_map (fun x => filter p (g x)) l.
Proof.
  induction l as [|x l IH]; simpl; [reflexivity|].
  now rewrite filter_app, IH.
Qed.

Lemma flat_map_ext_in {A B} (f g : A -> list B) l :
  (forall x, In x l -> f x = g x) -> flat_map f l = flat_map g l.
Proof.
  induction l as [|x l IH]; simpl; intros H; [reflexivity|].
  rewrite (H x (or_introl eq_refl)), IH; [reflexivity|].
  intros y Hy. apply H. now right.
Qed.

Lemma NoDup_flat_map_elem {A B C} (f : B -> C) (g : A -> list B) l a :
  NoDup (map f (flat_map g l)) -> In a l -> NoDup (map f (g a)).
Proof.
  induction l as [|x l IH]; simpl; [tauto|].
  rewrite map_app. intros Hnd [->|Ha].
  - eapply NoDup_app_remove_r. exact Hnd.
  - apply IH; [|exact Ha]. eapply NoDup_app_remove_l. exact Hnd.
Qed.

Lemma unique_key_permutation {A} (key : A -> string) (x : A) l :
  NoDup (map key l) -> In x l ->
  Permutation l (x :: filter (fun y => negb (key y =? key x)) l).
Proof.
  induction l as [|y l IH]; simpl; [tauto|].
  intros Hnd Hin. inversion Hnd as [|? ? Hnotin Hnd']; subst.
  destruct Hin as [->|Hin].
  - rewrite String.eqb_refl. simpl. constructor.
    rewrite filter_fixed; [reflexivity|].
    intros z Hz. apply negb_true_iff, String.eqb_neq. intros E.
    apply Hnotin. rewrite <- E. now apply in_map.
  - destruct (key y =? key x) eqn:E; simpl.
    + apply String.eqb_eq in E. exfalso. apply Hnotin. rewrite E.
      now apply in_map.
    + rewrite perm_swap. constructor. now apply IH.
Qed.

Lemma find_first_split {A} (p : A -> bool) pre x post :
  p x = true -> (forall y, In y pre -> p y = false) ->
  find p (pre ++ x :: post) = Some x.
Proof.
  intros Hx. induction pre as [|y pre IH]; simpl; intros H.
  - now rewrite Hx.
  - rewrite (H y (or_introl eq_refl)). apply IH.
    intros z Hz. apply H. now right.
Qed.

Lemma forEach_with_snd_in {A S} (f : A -> S -> A * S) (P : S -> Prop) l :
  (forall x, In x l -> forall s, P s -> P (snd (f x s))) ->
  forall s, P s -> P (snd (forEach_with f l s)).
Proof.
  induction l as [|x l IH]; intros Hf s Hs; simpl; [exact Hs|].
  pose proof (Hf x (or_introl eq_refl) s Hs) as Hx.
  destruct (f x s) as [x' s1]. simpl in Hx.
  pose proof (IH (fun y Hy => Hf y (or_intror Hy)) s1 Hx) as Hl.
  now destruct (forEach_with f l s1).
Qed.

Lemma takeProject_area_id projectId a :
  area_id (takeProject projectId a) = area_id a.
Proof.
  unfold takeProject.
  now destruct (find (is_project projectId) (area_projects a)).
Qed.

Lemma takeProject_projects projectId a :
  NoDup (map project_id (area_projects a)) ->
  area_projects (takeProject projectId a) =
  filter (fun p => negb (project_id p =? projectId)) (area_projects a).
Proof.
  intros Hnd. unfold takeProject.
  destruct (find (is_project projectId) (area_projects a)) eqn:E.
  - cbn. now apply (remove_first_as_filter project_id).
  - symmetry. apply filter_fixed. intros p Hp.
    pose proof (find_none _ _ E p Hp) as H. unfold is_project in H.
    now rewrite H.
Qed.

(** X27. Moving a project loses and duplicates nothing.  When
    project ids are distinct, the project exists and the target area
    exists, after [moveProject] the projects of the document are the same
    up to order, the areas, their direct tasks and the inbox are
    unchanged, and the moved project is the first project of the target
    area. *)
Theorem moveProject_keeps_projects (projectId targetAreaId : string)
  (d : LifeOSData) :
  NoDup (map project_id (all_projects d)) ->
  (exists p, In p (all_projects d) /\ project_id p = projectId) ->
  (exists a, In a (areas d) /\ area_id a = targetAreaId) ->
  let d' := moveProject projectId targetAreaId d in
  Permutation (all_projects d') (all_projects d) /\
  map area_id (areas d') = map area_id (areas d) /\
  map area_tasks (areas d') = map area_tasks (areas d) /\
  inbox d' = inbox d /\
  exists a' p,
    find (is_area targetAreaId) (areas d') = Some a' /\
    hd_error (area_projects a') = Some p /\ project_id p = projectId.
Proof.
  intros Hnd (p0 & Hp0 & Hid0) (a0 & Ha0 & Haid) d'. subst d'.
  unfold moveProject.
  pose proof (moveProject_removal_fst projectId (areas d) None) as Hf.
  set (f := fun area (found : option Project) =>
         match find (is_project projectId) (area_projects area) with
         | Some p =>
             (set_area_projects
                (remove_first (is_project projectId) (area_projects area))
                area, Some p)
         | None => (area, found)
         end) in *.
  assert (Hsome : forall p, snd (forEach_with f (areas d) None) = Some p ->
            In p (all_projects d) /\ project_id p = projectId).
  { apply (forEach_with_snd_in f
             (fun m => forall p, m = Some p ->
                In p (all_projects d) /\ project_id p = projectId)).
    - intros a Ha s Hs p. unfold f.
      destruct (find (is_project projectId) (area_projects a)) as [q|] eqn:E;
        simpl; [|apply Hs].
      intros [= <-]. apply find_some in E as [Hin Hq].
      unfold is_project in Hq. apply String.eqb_eq in Hq.
      split; [|exact Hq]. apply in_all_projects. eauto.
    - intros p [=]. }
  assert (Hnone : snd (forEach_with f (areas d) None) <> None).
  { intros Hn.
    destruct (forEach_with_found f
                (fun a => find (is_project projectId) (area_projects a) = None)
                (areas d)) with (s := @None Project) as [_ Hall].
    - intros a s. unfold f.
      destruct (find (is_project projectId) (area_projects a)); simpl;
        [discriminate | auto].
    - exact Hn.
    - apply in_all_projects in Hp0 as (a & Ha & Hp).
      rewrite Forall_forall in Hall. specialize (Hall a Ha).
      pose proof (find_none _ _ Hall p0 Hp) as H. unfold is_project in H.
      rewrite Hid0, String.eqb_refl in H. discriminate. }
  destruct (forEach_with f (areas d) None) as [areas' [p|]];
    [|contradiction]. simpl in Hf, Hsome. clear Hnone. subst areas'.
  destruct (Hsome p eq_refl) as [Hp Hid].
  assert (Hprojs : flat_map area_projects (map (takeProject projectId) (areas d))
                   = filter (fun q => negb (project_id q =? projectId))
                       (all_projects d)).
  { unfold all_projects. rewrite flat_map_map, filter_flat_map.
    apply flat_map_ext_in. intros a Ha. apply takeProject_projects.
    exact (NoDup_flat_map_elem project_id area_projects (areas d) a Hnd Ha). }
  destruct (first_match_split (is_area targetAreaId)
              (map (takeProject projectId) (areas d)))
    as (pre & a' & post & Hsplit & Ha' & Hpre).
  { exists (takeProject projectId a0). split; [now apply in_map|].
    unfold is_area. rewrite takeProject_area_id. now apply String.eqb_eq. }
  rewrite Hsplit in *.
  rewrite (find_first_split _ pre a' post Ha' Hpre).
  cbn [areas inbox set_areas].
  rewrite (update_first_split (is_area targetAreaId) _ pre a' post Ha' Hpre).
  repeat split.
  - unfold all_projects at 1. cbn [areas set_areas].
    rewrite flat_map_app. cbn [flat_map area_projects set_area_projects].
    rewrite flat_map_app in Hprojs. cbn [flat_map] in Hprojs.
    rewrite <- app_comm_cons, <- Permutation_middle, Hprojs.
    symmetry. rewrite <- Hid.
    now apply (unique_key_permutation project_id).
  - assert (E : map area_id (pre ++ a' :: post) = map area_id (areas d)).
    { rewrite <- Hsplit, map_map. apply map_ext.
      apply takeProject_area_id. }
    rewrite <- E, !map_app. reflexivity.
  - assert (E : map area_tasks (pre ++ a' :: post) = map area_tasks (areas d)).
    { rewrite <- Hsplit, map_map. apply map_ext. intros a.
      unfold takeProject.
      now destruct (find (is_project projectId) (area_projects a)). }
    rewrite <- E, !map_app. reflexivity.
  - eexists _, p. rewrite find_first_split; [|exact Ha'|exact Hpre].
    repeat split. exact Hid.
Qed.

Lemma moveProject_keeps_projects_witness :
  Permutation (all_projects (moveProject "p1" "a2" doc2)) (all_projects doc2)
  /\ map area_id (areas (moveProject "p1" "a2" doc2)) = ["a1"; "a2"].
Proof.
  assert (H := moveProject_keeps_projects "p1" "a2" doc2).
  cbv zeta in H.
  destruct H as (Hperm & Hids & _).
  - vm_compute. repeat constructor. simpl. tauto.
  - exists project1. split; [vm_compute; now left | reflexivity].
  - exists (newArea "Work" "briefcase" None "a2").
    split; [vm_compute; right; now left | reflexivity].
  - split; [exact Hperm | exact Hids].
Defined.

End MoveProjectFacts.

Section LocateFacts.
Import Model Mutation Updates Traversal Targets Locate Samples.

Lemma has_task_count taskId tasks :
  has_task taskId tasks = false <-> count_in taskId tasks = 0.
Proof.
  unfold has_task, count_in, is_task.
  induction tasks as [|t tasks IH]; simpl; [tauto|].
  destruct (task_id t =? taskId) eqn:E; simpl.
  - apply String.eqb_eq in E.
    destruct (string_dec (task_id t) taskId) as [_|C]; [|contradiction].
    split; [discriminate | lia].
  - apply String.eqb_neq in E.
    destruct (string_dec (task_id t) taskId) as [C|_]; [contradiction|].
    exact IH.
Qed.

Lemma first_return_none {A B} (body : A -> option B) l :
  (forall x, In x l -> body x = None) -> first_return body l = None.
Proof.
  induction l as [|x l IH]; simpl; intros H; [reflexivity|].
  rewrite (H x (or_introl eq_refl)). apply IH.
  intros y Hy. apply H. now right.
Qed.

Lemma first_return_split {A B} (body : A -> option B) pre x post r :
  (forall y, In y pre -> body y = None) -> body x = Some r ->
  first_return body (pre ++ x :: post) = Some r.
Proof.
  intros Hpre Hx. induction pre as [|y pre IH]; simpl.
  - now rewrite Hx.
  - rewrite (Hpre y (or_introl eq_refl)). apply IH.
    intros z Hz. apply Hpre. now right.
Qed.

Lemma locate_in_area_none taskId a :
  direct_count taskId a = 0 -> nested_count taskId a = 0 ->
  locate_in_area taskId a = None.
Proof.
  intros Hd Hn. unfold locate_in_area, direct_count in *.
  assert (Ht : has_task taskId (area_tasks a) = false)
    by (apply has_task_count; lia).
  rewrite Ht. apply first_return_none. intros p Hp.
  unfold locate_in_project.
  assert (Hpt : has_task taskId (project_tasks p) = false).
  { apply has_task_count.
    assert (Hs : list_sum (map (fun p => count_in taskId (project_tasks p))
                             (area_projects a)) = 0) by lia.
    apply (list_sum_zero _ _ Hs).
    apply in_map_iff. exists p. auto. }
  rewrite Hpt. apply first_return_none. intros ph Hph.
  assert (Hpc : phase_count taskId p = 0).
  { apply (list_sum_zero _ _ Hn). apply in_map_iff. exists p. auto. }
  assert (Hc : count_in taskId (phase_tasks ph) = 0).
  { apply (list_sum_zero _ _ Hpc). apply in_map_iff. exists ph. auto. }
  apply has_task_count in Hc. now rewrite Hc.
Qed.

(** The shape of the document after an insertion into an area. *)
Lemma insert_task_area t i d :
  given (Some i) = Some i ->
  (exists a, In a (areas d) /\ area_id a = i) ->
  exists pre a post,
    areas d = pre ++ a :: post /\ area_id a = i /\
    (forall y, In y pre -> is_area i y = false) /\
    insert_task t TArea (Some i) d =
    set_areas (pre ++ unshift_area_task t a :: post) d.
Proof.
  intros Hg (a0 & Ha0 & Hid).
  destruct (first_match_split (is_area i) (areas d))
    as (pre & a & post & Hsplit & Ha & Hpre).
  { exists a0. split; [exact Ha0|]. unfold is_area. now apply String.eqb_eq. }
  exists pre, a, post. repeat split; auto.
  - unfold is_area in Ha. now apply String.eqb_eq.
  - unfold insert_task. rewrite Hg. f_equal. rewrite Hsplit.
    now apply update_first_split.
Qed.

Lemma count_in_cons_self t tasks :
  0 < count_in (task_id t) (t :: tasks).
Proof.
  unfold count_in. simpl.
  destruct (string_dec (task_id t) (task_id t)); [lia | contradiction].
Qed.

Lemma absent_area_counts taskId d a :
  occurrences taskId d = 0 -> In a (areas d) ->
  direct_count taskId a = 0 /\ nested_count taskId a = 0.
Proof.
  intros Hocc Ha. rewrite occurrences_split in Hocc. split.
  - assert (Hs : list_sum (map (direct_count taskId) (areas d)) = 0) by lia.
    apply (list_sum_zero _ _ Hs). now apply in_map.
  - assert (Hs : list_sum (map (nested_count taskId) (areas d)) = 0) by lia.
    apply (list_sum_zero _ _ Hs). now apply in_map.
Qed.

(** X28. The edit dialog finds a moved task at its target.
    On a document with the one-location invariant, after moving a task of
    the document into the inbox or into an area that exists,
    [currentLocation] reports that kind of location and, for an area,
    the id the move was given. *)
Theorem moveTask_then_currentLocation (taskId : string)
  (targetType : TargetType) (targetId : option string) (d : LifeOSData) :
  single_target targetType targetId d ->
  one_location d ->
  0 < occurrences taskId d ->
  let location :=
    currentLocation taskId (moveTask taskId targetType targetId d) in
  loc_type location = targetType /\
  (targetType = TArea -> location_targetId location = targetId).
Proof.
  intros Hst Hone Hpos location. subst location. unfold moveTask.
  pose proof (removeEverywhere_found taskId d) as Hfound.
  pose proof (removeEverywhere_id taskId d) as Hid.
  pose proof (removed_absent taskId d Hone) as Habs.
  pose proof (single_target_removeEverywhere taskId _ _ d Hst) as Hst'.
  destruct (removeEverywhere taskId d) as [newData [t|]]; simpl in *;
    [|specialize (Hfound eq_refl); lia].
  specialize (Hid t eq_refl).
  apply (count_occ_not_In string_dec) in Habs.
  fold (occurrences taskId newData) in Habs.
  unfold single_target in Hst'.
  destruct targetType; try (destruct (given targetId); contradiction).
  - (* inbox *)
    split; [|discriminate].
    unfold insert_task, currentLocation. cbn [areas set_inbox].
    rewrite first_return_none; [reflexivity|].
    intros a Ha. apply locate_in_area_none;
      now apply (absent_area_counts taskId newData a Habs).
  - (* area *)
    destruct (given targetId) as [i|] eqn:Hg; [|contradiction].
    assert (HtargetId : targetId = Some i).
    { destruct targetId as [s|]; [|discriminate]. simpl in Hg.
      destruct (s =? "")%string; [discriminate | exact Hg]. }
    subst targetId.
    destruct (insert_task_area t i newData Hg Hst')
      as (pre & a & post & Hsplit & Hida & Hpre & ->).
    assert (Hloc : first_return (locate_in_area taskId)
                     (pre ++ unshift_area_task t a :: post) =
                   Some {| loc_type := TArea; loc_areaId := Some i;
                           loc_projectId := None; loc_phaseId := None |}).
    { apply first_return_split.
      - intros y Hy. apply locate_in_area_none;
          apply (absent_area_counts taskId newData y Habs);
          rewrite Hsplit; apply in_or_app; now left.
      - unfold locate_in_area, unshift_area_task.
        cbn [area_tasks set_area_tasks area_id has_task existsb].
        unfold is_task at 1. rewrite Hid, String.eqb_refl. simpl.
        now rewrite Hida. }
    unfold currentLocation. cbn [areas set_areas]. rewrite Hloc.
    split; [reflexivity | intros _; reflexivity].
Qed.

Lemma moveTask_then_currentLocation_witness :
  loc_type (currentLocation "t4" (moveTask "t4" TArea (Some "a1") doc1))
  = TArea /\
  loc_type (currentLocation "t2" (moveTask "t2" TInbox None doc1)) = TInbox.
Proof.
  assert (Hone : one_location doc1).
  { unfold one_location. vm_compute.
    repeat constructor; simpl; intuition discriminate. }
  split.
  - refine (proj1
      (moveTask_then_currentLocation "t4" TArea (Some "a1") doc1 _ Hone _)).
    + exists area1. split; [now left | reflexivity].
    + vm_compute. lia.
  - refine (proj1
      (moveTask_then_currentLocation "t2" TInbox None doc1 I Hone _)).
    vm_compute. lia.
Defined.

End LocateFacts.
